(** * Authentication and token lifecycle of the FastAPI backend template

    A shallow embedding of the authentication core of the repository:

    - [services/auth.py] and [repositories/user.py] of the full backend
      ([backend/src]): login, refresh with rotation and replay detection,
      logout and logout from all devices;
    - [core/security.py], [core/dependencies.py], [core/exceptions.py] and
      [core/enums.py] of the minimal example
      ([stacks/fastapi-react/examples/minimal-production/backend/app]): the
      password helpers, the access-token codec, the current-user dependency
      and the exception classes.

    The service imports its helpers from the full backend's own
    [src.core.security] and [src.core.exceptions], which are absent here. Where the
    example defines a helper of the same name and call shape
    ([verify_password_with_timing_safety], [InvalidCredentials],
    [TokenError]) the example's definition is the one embedded. The
    example's [create_access_token] takes [(user_id, extra_claims)], while
    the service calls [create_access_token(user.id, user.token_version)],
    and the example defines neither [hash_token] nor [create_refresh_token]:
    the service's token issuer and [hash_token] are parameters, and what else is
    absent (the refresh-token model and store, [create_refresh_token],
    [TokenRevokedError], [User.increment_token_version]) is modelled from
    the specification, each definition saying so. The module [FullBackend]
    holds the issuer and the validator of the full backend's access tokens
    as the specification describes them, for the properties that are about
    the [ver] claim.

    Python objects become records, the database session becomes an explicit
    state threaded through a small state-and-exception monad, and the
    libraries the code calls (pwdlib, PyJWT, uuid, hashlib) are the fields
    of one interface, [Externals], over which every definition and theorem
    is generic. *)

From Stdlib Require Import ZArith Lia Ascii String DecimalString.
From stdpp Require Import base option list strings gmap numbers.

Local Open Scope string_scope.
Local Open Scope list_scope.
Local Open Scope Z_scope.

(** ** Values *)

(** A [uuid.UUID], by its 128-bit integer value. *)
Definition UUID : Type := N.

(** A [datetime] in UTC, in seconds since the epoch (the form PyJWT writes
    [iat] and [exp] in). *)
Definition datetime : Type := Z.

(** A value of a JWT claim set. *)
Inductive ClaimValue : Type :=
| VStr (s : string)
| VInt (z : Z).

#[global] Instance ClaimValue_eq_dec : EqDecision ClaimValue.
Proof. solve_decision. Defined.

(** The payload [dict[str, Any]] of a token. *)
Abbreviation Claims := (gmap string ClaimValue).

(** ** Exceptions: [core/exceptions.py] *)

Inductive ExceptionClass : Type :=
| CBaseAppException
| CResourceNotFound
| CConflictError
| CAuthenticationError
| CTokenError
| CTokenRevokedError
| CUserNotFound
| CEmailAlreadyExists
| CInvalidCredentials
| CInactiveUser.

#[global] Instance ExceptionClass_eq_dec : EqDecision ExceptionClass.
Proof. solve_decision. Defined.

(** An instance of [BaseAppException] or of one of its subclasses: the class
    it was built by and the attributes [__init__] sets. [extra or {}] is the
    empty dictionary at every [raise] of the code, which never passes one. *)
Record BaseAppException : Type := mkException {
  exc_class : ExceptionClass;
  message : string;
  status_code : Z;
  extra : list (string * string)
}.

#[global] Instance BaseAppException_eq_dec : EqDecision BaseAppException.
Proof. solve_decision. Defined.

(** What a [raise] carries: an exception of the application, or one of a
    library or of the runtime (pwdlib's errors, [ValueError], [KeyError]),
    all of them subclasses of [Exception]. *)
Inductive exception : Type :=
| App (e : BaseAppException)
| Foreign (name : string).

#[global] Instance exception_eq_dec : EqDecision exception.
Proof. solve_decision. Defined.

Definition AuthenticationError_init (c : ExceptionClass) (message : string)
  : BaseAppException :=
  {| exc_class := c; message := message; status_code := 401; extra := [] |}.

Definition ResourceNotFound_init (c : ExceptionClass) (resource identifier : string)
  : BaseAppException :=
  {| exc_class := c;
     message := resource +:+ " with id '" +:+ identifier +:+ "' not found";
     status_code := 404;
     extra := [] |}.

Definition TokenError (message : string) : BaseAppException :=
  AuthenticationError_init CTokenError message.

Definition UserNotFound (identifier : string) : BaseAppException :=
  ResourceNotFound_init CUserNotFound "User" identifier.

Definition InvalidCredentials : BaseAppException :=
  AuthenticationError_init CInvalidCredentials "Invalid email or password".

Definition InactiveUser : BaseAppException :=
  AuthenticationError_init CInactiveUser "User account is inactive".

(** The outcome of a call: its value, or the exception it raised. *)
Inductive result (A : Type) : Type :=
| Ok (a : A)
| Raise (e : exception).
Arguments Ok {A} a.
Arguments Raise {A} e.

(** ** Models *)

(** A row of [users]: the columns of the example's [user/User.py] ([id] by
    [UUIDMixin], [email], [hashed_password], [is_active]) and the
    [token_version] the service and the repository of the full backend read
    and increment. *)
Record User : Type := mkUser {
  id : UUID;
  email : string;
  hashed_password : string;
  is_active : bool;
  token_version : Z
}.

#[global] Instance User_eq_dec : EqDecision User.
Proof. solve_decision. Defined.

(** Modelled from the spec: the method [User.increment_token_version] of
    [models/User.py], which is absent. The spec calls
    [token_version] monotonically increasing and has logout-all increment
    it: the counter goes up by one. *)
Definition User_increment_token_version (u : User) : User :=
  {| id := id u; email := email u; hashed_password := hashed_password u;
     is_active := is_active u; token_version := token_version u + 1 |}.

Definition User_set_hashed_password (u : User) (h : string) : User :=
  {| id := id u; email := email u; hashed_password := h;
     is_active := is_active u; token_version := token_version u |}.

(** Modelled from the spec: the model [RefreshToken] of
    [models/RefreshToken.py], which is absent. The fields are
    those of the spec's data model; the service reads [is_revoked],
    [is_expired], [family_id] and [user_id]. *)
Record RefreshToken : Type := mkRefreshToken {
  rt_id : UUID;
  user_id : UUID;
  token_hash : string;
  family_id : UUID;
  expires_at : datetime;
  is_revoked : bool;
  device_id : option string;
  device_name : option string;
  ip_address : option string
}.

#[global] Instance RefreshToken_eq_dec : EqDecision RefreshToken.
Proof. solve_decision. Defined.

(** Modelled from the spec: the property [RefreshToken.is_expired]; a token
    is expired once its expiry instant is reached. *)
Definition is_expired (now : datetime) (t : RefreshToken) : bool :=
  bool_decide (expires_at t ≤ now).

(** Modelled from the spec: a token is live when it is neither revoked nor
    expired. *)
Definition is_live (now : datetime) (t : RefreshToken) : bool :=
  negb (is_revoked t) && negb (is_expired now t).

(** Modelled from the spec: [RefreshToken.revoke], which sets the flag. *)
Definition RefreshToken_revoke (t : RefreshToken) : RefreshToken :=
  {| rt_id := rt_id t; user_id := user_id t; token_hash := token_hash t;
     family_id := family_id t; expires_at := expires_at t; is_revoked := true;
     device_id := device_id t; device_name := device_name t;
     ip_address := ip_address t |}.

(** ** The state and the monad *)

(** A call the code hands to the password hasher (through
    [asyncio.to_thread]); the log of these calls is the cost a caller can
    observe. *)
Inductive HasherCall : Type :=
| CallHash (password : string)
| CallVerify (password hash : string)
| CallVerifyAndUpdate (password hash : string).

#[global] Instance HasherCall_eq_dec : EqDecision HasherCall.
Proof. solve_decision. Defined.

(** What a request can change: the two tables of the database session
    ([users] by primary key, [refresh_tokens] in insertion order) and the
    log of hasher calls. *)
Record World : Type := mkWorld {
  users : gmap UUID User;
  refresh_tokens : list RefreshToken;
  hasher_calls : list HasherCall
}.

Definition set_users (f : gmap UUID User → gmap UUID User) (w : World) : World :=
  {| users := f (users w); refresh_tokens := refresh_tokens w;
     hasher_calls := hasher_calls w |}.

Definition set_refresh_tokens (f : list RefreshToken → list RefreshToken)
  (w : World) : World :=
  {| users := users w; refresh_tokens := f (refresh_tokens w);
     hasher_calls := hasher_calls w |}.

Definition log_call (c : HasherCall) (w : World) : World :=
  {| users := users w; refresh_tokens := refresh_tokens w;
     hasher_calls := hasher_calls w ++ [c] |}.

(** A computation over the world that returns or raises; what it changed
    before a [raise] stays changed, as in the session of the code. *)
Definition M (A : Type) : Type := World → result A * World.

#[global] Instance M_ret : MRet M := λ A a w, (Ok a, w).

#[global] Instance M_bind : MBind M := λ A B k m w,
  match m w with
  | (Ok a, w') => k a w'
  | (Raise e, w') => (Raise e, w')
  end.

Definition raise {A : Type} (e : exception) : M A := λ w, (Raise e, w).

(** [try: m except Exception: h]. *)
Definition try_except {A : Type} (m : M A) (h : exception → M A) : M A := λ w,
  match m w with
  | (Ok a, w') => (Ok a, w')
  | (Raise e, w') => h e w'
  end.

Definition gets {A : Type} (f : World → A) : M A := λ w, (Ok (f w), w).

Definition modify (f : World → World) : M () := λ w, (Ok (), f w).

(** [await asyncio.to_thread(f, *args)] for a hasher method: the call is
    made (and logged), and its value or its exception comes back. *)
Definition to_thread {A : Type} (c : HasherCall) (r : result A) : M A := λ w,
  (r, log_call c w).

(** ** The libraries and the configuration *)

(** [pwdlib.PasswordHash]: the three methods the code calls. [hash] and the
    re-hash of [verify_and_update] draw a salt, which is an argument here;
    [verify] and [verify_and_update] raise on a string that is no hash. *)
Record PasswordHash : Type := mkPasswordHash {
  ph_hash : string → string → string;
  ph_verify : string → string → result bool;
  ph_verify_and_update : string → string → string → result (bool * option string)
}.

(** [JWT_ALGORITHM: Literal["HS256", "HS384", "HS512"]]: the HMAC family. *)
Inductive Algorithm : Type := HS256 | HS384 | HS512.

#[global] Instance Algorithm_eq_dec : EqDecision Algorithm.
Proof. solve_decision. Defined.

(** HMAC algorithms sign and verify with one shared key. *)
Definition symmetric (a : Algorithm) : bool :=
  match a with HS256 | HS384 | HS512 => true end.

(** The fields of [Settings] the authentication core reads.
    [REFRESH_TOKEN_EXPIRE_DAYS] is the refresh lifetime of the full backend's
    configuration. *)
Record Settings : Type := mkSettings {
  SECRET_KEY : string;
  JWT_ALGORITHM : Algorithm;
  ACCESS_TOKEN_EXPIRE_MINUTES : Z;
  REFRESH_TOKEN_EXPIRE_DAYS : Z
}.

(** Everything the code takes from outside its own files. *)
Class Externals : Type := mkExternals {
  (** [password_hasher = PasswordHash.recommended()] *)
  password_hasher : PasswordHash;
  (** the salt drawn when the module computes [DUMMY_HASH] at import *)
  DUMMY_SALT : string;
  (** [jwt.encode(payload, key, algorithm)] *)
  jwt_encode : Claims → string → Algorithm → string;
  (** [jwt.decode(token, key, algorithms, options={"require": ...})] read at
      an instant: the claims, or the text of the [InvalidTokenError] *)
  jwt_decode : string → string → list Algorithm → list string → datetime →
               string + Claims;
  (** [str(uuid)] and [UUID(text)] ([None]: [ValueError]) *)
  uuid_str : UUID → string;
  uuid_parse : string → option UUID;
  (** [hash_token] of the full backend's [core/security.py]: a deterministic
      digest of the raw refresh token *)
  hash_token : string → string;
  (** [create_access_token(user_id, token_version)] of the full backend's
      [core/security.py], at an instant *)
  create_versioned_access_token : datetime → UUID → Z → string;
  (** the message of [TokenRevokedError] *)
  TOKEN_REVOKED_MESSAGE : string;
  settings : Settings
}.

(** Modelled from the spec: the class [TokenRevokedError] of the full
    backend's [core/exceptions.py], which is absent. The
    service imports it beside [TokenError]; the spec gives its kind and its
    status (401) and not its message, which is a parameter. *)
Definition TokenRevokedError `{Externals} : BaseAppException :=
  AuthenticationError_init CTokenRevokedError TOKEN_REVOKED_MESSAGE.

(** ** [core/security.py] *)

Section security.
Context `{Externals}.

Definition hash_password (salt password : string) : M string :=
  to_thread (CallHash password) (Ok (ph_hash password_hasher salt password)).

Definition verify_password (salt plain_password hashed_password : string)
  : M (bool * option string) :=
  try_except
    (to_thread (CallVerifyAndUpdate plain_password hashed_password)
       (ph_verify_and_update password_hasher salt plain_password hashed_password))
    (λ _, mret (false, None)).

Definition DUMMY_HASH : string :=
  ph_hash password_hasher DUMMY_SALT "dummy_password_for_timing_attack_prevention".

Definition verify_password_with_timing_safety
  (salt plain_password : string) (hashed_password : option string)
  : M (bool * option string) :=
  match hashed_password with
  | None =>
      _ ← to_thread (CallVerify plain_password DUMMY_HASH)
            (ph_verify password_hasher plain_password DUMMY_HASH);
      mret (false, None)
  | Some hashed_password => verify_password salt plain_password hashed_password
  end.

(** [TokenType.ACCESS.value] of [core/enums.py]. *)
Definition TokenType_ACCESS : string := "access".

(** The dictionary [payload] of [create_access_token] as [jwt.encode]
    receives it: the four fixed claims, updated with the extra claims when
    the argument is neither [None] nor empty ([dict.update]: on a shared key
    the extra claim wins). *)
Definition access_token_payload
  (now : datetime) (user_id : UUID) (extra_claims : option Claims) : Claims :=
  let payload : Claims :=
    {[ "sub" := VStr (uuid_str user_id);
       "type" := VStr TokenType_ACCESS;
       "iat" := VInt now;
       "exp" := VInt (now + 60 * ACCESS_TOKEN_EXPIRE_MINUTES settings) ]} in
  match extra_claims with
  | Some extra => if bool_decide (extra = ∅) then payload else extra ∪ payload
  | None => payload
  end.

Definition create_access_token
  (now : datetime) (user_id : UUID) (extra_claims : option Claims) : string :=
  jwt_encode (access_token_payload now user_id extra_claims)
    (SECRET_KEY settings) (JWT_ALGORITHM settings).

Definition decode_access_token (now : datetime) (token : string)
  : string + Claims :=
  jwt_decode token (SECRET_KEY settings) [JWT_ALGORITHM settings]
    ["exp"; "sub"; "iat"; "type"] now.

End security.

(** What one request reads from the clock and from the random sources: the
    instant, the salt a re-hash would draw, the value of
    [secrets.token_urlsafe], and the two [uuid7()] values (the new family
    and the primary key of the inserted row). *)
Record Env : Type := mkEnv {
  now : datetime;
  salt : string;
  token_urlsafe : string;
  uuid7_family : UUID;
  uuid7_row : UUID
}.

(** Modelled from the spec: [create_refresh_token(user_id, family_id)] of the
    full backend's [core/security.py], which is absent: a
    random opaque value, its digest for storage, and the expiry instant, the
    configured number of days ahead. *)
Definition create_refresh_token `{Externals} (env : Env) (user_id family_id : UUID)
  : string * string * datetime :=
  (token_urlsafe env,
   hash_token (token_urlsafe env),
   now env + 86400 * REFRESH_TOKEN_EXPIRE_DAYS settings).

(** ** [repositories/user.py] *)

Module UserRepository.

(** [select(User).where(User.email == email)] then [.first()]. *)
Definition get_by_email (email_ : string) : M (option User) :=
  gets (λ w, snd <$> head (filter (λ r, email r.2 = email_) (map_to_list (users w)))).

(** [session.get(User, id)]. *)
Definition get_by_id (id_ : UUID) : M (option User) :=
  gets (λ w, users w !! id_).

(** The assignments change the object [user] in place; [flush] writes it to
    its row and [refresh] reads the row back. The changed object is the
    value, and a caller goes on with it where the code goes on with the
    object it passed. *)
Definition update_password (user : User) (hashed_password_ : string) : M User :=
  let user := User_set_hashed_password user hashed_password_ in
  let user := User_increment_token_version user in
  _ ← modify (set_users (<[id user := user]>));
  mret user.

Definition increment_token_version (user : User) : M User :=
  let user := User_increment_token_version user in
  _ ← modify (set_users (<[id user := user]>));
  mret user.

End UserRepository.

(** ** The refresh-token store *)

Module RefreshTokenRepository.

(** Modelled from the spec: the class [RefreshTokenRepository] of
    [repositories/refresh_token.py], which is absent; each
    method follows the spec's description of the store. [create]: inserts a
    new live token row. *)
Definition create_token (id_ user_id_ : UUID) (token_hash_ : string)
  (family_id_ : UUID) (expires_at_ : datetime)
  (device_id_ device_name_ ip_address_ : option string) : M RefreshToken :=
  let t := {| rt_id := id_; user_id := user_id_; token_hash := token_hash_;
              family_id := family_id_; expires_at := expires_at_;
              is_revoked := false; device_id := device_id_;
              device_name := device_name_; ip_address := ip_address_ |} in
  _ ← modify (set_refresh_tokens (λ l, l ++ [t]));
  mret t.

(** Modelled from the spec: [get_by_hash(token_hash) -> record | absent]. *)
Definition get_by_hash (token_hash_ : string) : M (option RefreshToken) :=
  gets (λ w, snd <$> list_find (λ t, token_hash t = token_hash_) (refresh_tokens w)).

(** Modelled from the spec: [revoke(record)] marks a single record revoked;
    the record is the row with its primary key. *)
Definition revoke_token (token : RefreshToken) : M () :=
  modify (set_refresh_tokens
    (fmap (λ t, if decide (rt_id t = rt_id token) then RefreshToken_revoke t else t))).

(** Modelled from the spec: [revoke_family(family_id)] marks every record
    sharing [family_id] revoked. *)
Definition revoke_family (family_id_ : UUID) : M () :=
  modify (set_refresh_tokens
    (fmap (λ t, if decide (family_id t = family_id_) then RefreshToken_revoke t else t))).

(** The live records of a user at an instant. *)
Definition live_of_user (now : datetime) (user_id_ : UUID) (t : RefreshToken) : bool :=
  is_live now t && bool_decide (user_id t = user_id_).

(** Modelled from the spec: [revoke_all_for_user(user_id) -> count] marks
    every live record for a user revoked and returns the count revoked. *)
Definition revoke_all_user_tokens (now : datetime) (user_id_ : UUID) : M Z :=
  count ← gets (λ w, length (filter (λ t, live_of_user now user_id_ t = true)
                              (refresh_tokens w)));
  _ ← modify (set_refresh_tokens
        (fmap (λ t, if live_of_user now user_id_ t then RefreshToken_revoke t else t)));
  mret (Z.of_nat count).

End RefreshTokenRepository.

(** ** [services/auth.py] *)

Module AuthService.
Section service.
Context `{Externals}.

(** [if new_hash:] holds for a string that is not empty. *)
Definition truthy (s : option string) : bool :=
  match s with
  | Some h => negb (bool_decide (h = ""))
  | None => false
  end.

(** The value is [(access_token, raw_refresh, user)]. *)
Definition authenticate (env : Env) (email_ password : string)
  (device_id_ device_name_ ip_address_ : option string)
  : M (string * string * User) :=
  user ← UserRepository.get_by_email email_;
  let stored_hash := hashed_password <$> user in
  '(is_valid, new_hash) ←
    verify_password_with_timing_safety (salt env) password stored_hash;
  match is_valid, user with
  | true, Some user =>
      if negb (is_active user) then raise (App InvalidCredentials) else
      user ← (if truthy new_hash
               then UserRepository.update_password user (default "" new_hash)
               else mret user);
      let access_token :=
        create_versioned_access_token (now env) (id user) (token_version user) in
      let family_id_ := uuid7_family env in
      let '(raw_refresh, token_hash_, expires_at_) :=
        create_refresh_token env (id user) family_id_ in
      _ ← RefreshTokenRepository.create_token (uuid7_row env) (id user)
            token_hash_ family_id_ expires_at_ device_id_ device_name_ ip_address_;
      mret (access_token, raw_refresh, user)
  | _, _ => raise (App InvalidCredentials)
  end.

(** The value is the [access_token] of the [TokenResponse]. *)
Definition refresh_tokens (env : Env) (refresh_token : string)
  (device_id_ device_name_ ip_address_ : option string) : M string :=
  let token_hash_ := hash_token refresh_token in
  stored_token ← RefreshTokenRepository.get_by_hash token_hash_;
  match stored_token with
  | None => raise (App (TokenError "Invalid refresh token"))
  | Some stored_token =>
      if is_revoked stored_token then
        _ ← RefreshTokenRepository.revoke_family (family_id stored_token);
        raise (App TokenRevokedError)
      else if is_expired (now env) stored_token then
        raise (App (TokenError "Refresh token expired"))
      else
        user ← UserRepository.get_by_id (user_id stored_token);
        match user with
        | None => raise (App (TokenError "User not found or inactive"))
        | Some user =>
            if negb (is_active user) then
              raise (App (TokenError "User not found or inactive"))
            else
              _ ← RefreshTokenRepository.revoke_token stored_token;
              let access_token :=
                create_versioned_access_token (now env) (id user) (token_version user) in
              let '(_, new_hash, expires_at_) :=
                create_refresh_token env (id user) (family_id stored_token) in
              _ ← RefreshTokenRepository.create_token (uuid7_row env) (id user)
                    new_hash (family_id stored_token) expires_at_
                    device_id_ device_name_ ip_address_;
              mret access_token
        end
  end.

Definition logout (refresh_token : string) : M () :=
  let token_hash_ := hash_token refresh_token in
  stored_token ← RefreshTokenRepository.get_by_hash token_hash_;
  match stored_token with
  | Some stored_token =>
      if negb (is_revoked stored_token)
      then RefreshTokenRepository.revoke_token stored_token
      else mret ()
  | None => mret ()
  end.

Definition logout_all (env : Env) (user : User) : M Z :=
  user ← UserRepository.increment_token_version user;
  RefreshTokenRepository.revoke_all_user_tokens (now env) (id user).

End service.
End AuthService.

(** ** [core/dependencies.py] *)

Section dependencies.
Context `{Externals}.

(** [UUID(payload["sub"])] fails with [KeyError] on a missing key, and on a
    value that is no string or no UUID text. *)
Definition get_current_user (now : datetime) (token : string) : M User :=
  match decode_access_token now token with
  | inl e => raise (App (TokenError e))
  | inr payload =>
      if bool_decide (payload !! "type" ≠ Some (VStr TokenType_ACCESS)) then
        raise (App (TokenError "Invalid token type"))
      else
        match payload !! "sub" with
        | None => raise (Foreign "KeyError")
        | Some (VInt _) => raise (Foreign "AttributeError")
        | Some (VStr sub) =>
            match uuid_parse sub with
            | None => raise (Foreign "ValueError")
            | Some user_id_ =>
                user ← UserRepository.get_by_id user_id_;
                match user with
                | None => raise (App (UserNotFound (uuid_str user_id_)))
                | Some user => mret user
                end
            end
        end
  end.

Definition get_current_active_user (user : M User) : M User :=
  user ← user;
  if negb (is_active user) then raise (App InactiveUser) else mret user.

(** [CurrentUser]: the dependency chain a protected route runs. *)
Definition CurrentUser (now : datetime) (token : string) : M User :=
  get_current_active_user (get_current_user now token).

End dependencies.

(** ** Notions the properties are stated with *)

(** [verify] returns (it does not raise) on a hash the hasher produced. *)
Definition verify_returns_on_own_hashes (ph : PasswordHash) : Prop :=
  ∀ salt password plain, ∃ b, ph_verify ph plain (ph_hash ph salt password) = Ok b.

(** [verify_and_update] accepts a password against its own fresh hash. *)
Definition accepts_own_hashes (ph : PasswordHash) : Prop :=
  ∀ salt salt' password,
    ∃ upgraded,
      ph_verify_and_update ph salt' password (ph_hash ph salt password)
      = Ok (true, upgraded).

(** The live members of a family at an instant. *)
Definition family_live (now : datetime) (f : UUID) (l : list RefreshToken)
  : list RefreshToken :=
  filter (λ t, is_live now t = true ∧ family_id t = f) l.

(** The family invariant: at most one live token per [family_id]. *)
Definition family_invariant (now : datetime) (l : list RefreshToken) : Prop :=
  ∀ f, (length (family_live now f l) ≤ 1)%nat.

(** The invariant, checked on the families that occur in the list. *)
Definition family_invariantb (now : datetime) (l : list RefreshToken) : bool :=
  forallb (λ t, bool_decide (length (family_live now (family_id t) l) ≤ 1)%nat) l.

(** The number of live refresh tokens of a user. *)
Definition live_count (now : datetime) (user_id_ : UUID) (l : list RefreshToken) : nat :=
  length (filter (λ t, RefreshTokenRepository.live_of_user now user_id_ t = true) l).

(** The user a login looks up. *)
Definition found_user (email_ : string) (w : World) : option User :=
  snd <$> head (filter (λ r, email r.2 = email_) (map_to_list (users w))).

(** The user [authenticate] goes on with after the password check: the
    stored one, or the one re-hashed (and moved to the next token version)
    when the hasher returned an upgraded hash. *)
Definition after_rehash (user : User) (upgraded : option string) : User :=
  if AuthService.truthy upgraded
  then User_increment_token_version
         (User_set_hashed_password user (default "" upgraded))
  else user.

Section notions.
Context `{Externals}.

(** The row a successful refresh inserts. *)
Definition successor (env : Env) (stored : RefreshToken) (user : User)
  (d1 d2 d3 : option string) : RefreshToken :=
  {| rt_id := uuid7_row env; user_id := id user;
     token_hash := hash_token (token_urlsafe env);
     family_id := family_id stored;
     expires_at := now env + 86400 * REFRESH_TOKEN_EXPIRE_DAYS settings;
     is_revoked := false; device_id := d1; device_name := d2; ip_address := d3 |}.

(** The rows after a rotation: the presented record revoked, the successor
    appended. *)
Definition rotated (env : Env) (stored : RefreshToken) (user : User)
  (d1 d2 d3 : option string) (l : list RefreshToken) : list RefreshToken :=
  ((λ t, if decide (rt_id t = rt_id stored) then RefreshToken_revoke t else t) <$> l)
  ++ [successor env stored user d1 d2 d3].

(** The password is wrong for a user: the verifier does not answer
    [valid = True] (it answers [False], or it raises). *)
Definition wrong_password (salt password : string) (user : User) : Prop :=
  ∀ upgraded,
    ph_verify_and_update password_hasher salt password (hashed_password user)
    ≠ Ok (true, upgraded).

(** The four claims [create_access_token] writes itself. *)
Definition fixed_claims (now : datetime) (user_id_ : UUID) : Claims :=
  {[ "sub" := VStr (uuid_str user_id_);
     "type" := VStr "access";
     "iat" := VInt now;
     "exp" := VInt (now + 60 * ACCESS_TOKEN_EXPIRE_MINUTES settings) ]}.

End notions.

(** * More of the code *)

(** ** More of [core/exceptions.py] *)

Definition ConflictError_init (c : ExceptionClass) (message : string)
  : BaseAppException :=
  {| exc_class := c; message := message; status_code := 409; extra := [] |}.

Definition EmailAlreadyExists (email_ : string) : BaseAppException :=
  ConflictError_init CEmailAlreadyExists
    ("Email '" +:+ email_ +:+ "' is already registered").

(** ** [factory.py]: the exception handler *)

(** [exc.__class__.__name__]. *)
Definition class_name (c : ExceptionClass) : string :=
  match c with
  | CBaseAppException => "BaseAppException"
  | CResourceNotFound => "ResourceNotFound"
  | CConflictError => "ConflictError"
  | CAuthenticationError => "AuthenticationError"
  | CTokenError => "TokenError"
  | CTokenRevokedError => "TokenRevokedError"
  | CUserNotFound => "UserNotFound"
  | CEmailAlreadyExists => "EmailAlreadyExists"
  | CInvalidCredentials => "InvalidCredentials"
  | CInactiveUser => "InactiveUser"
  end.

(** The [JSONResponse] of the handler: its status code and the two keys of
    its content. *)
Record JSONResponse : Type := mkJSONResponse {
  response_status_code : Z;
  content_detail : string;
  content_type : string
}.

Definition app_exception_handler (exc : BaseAppException) : JSONResponse :=
  {| response_status_code := status_code exc;
     content_detail := message exc;
     content_type := class_name (exc_class exc) |}.

(** ** The minimal example's user and authentication services *)

Module Minimal.

(** [user/schemas.py]: the two fields of [UserCreate]. *)
Record UserCreate : Type := mkUserCreate {
  uc_email : string;
  uc_password : string
}.

(** [user/repository.py]. [get_by_email] and [get_by_id] have the text of
    the full backend's. *)
Module UserRepository.

Definition get_by_email (email_ : string) : M (option User) :=
  gets (λ w, snd <$> head (filter (λ r, email r.2 = email_) (map_to_list (users w)))).

Definition get_by_id (id_ : UUID) : M (option User) :=
  gets (λ w, users w !! id_).

(** [select(User.id).where(User.email == email)], then
    [.first() is not None]. *)
Definition email_exists (email_ : string) : M bool :=
  gets (λ w, bool_decide
    (is_Some (head (filter (λ r, email r.2 = email_) (map_to_list (users w)))))).

(** [User(email, hashed_password)] gets its [id] from [uuid7()] and
    [is_active = True] by the column defaults of [core/Base.py] and
    [user/User.py]; the example's model has no [token_version], whose value
    in the row is an argument here. [flush] sends the INSERT, which the
    primary key and the unique index on [email] ([unique = True];
    [uq_users_email] of the migration) refuse with [IntegrityError]. *)
Definition create_user (id_ : UUID) (token_version_ : Z)
  (email_ hashed_password_ : string) : M User :=
  let user := {| id := id_; email := email_; hashed_password := hashed_password_;
                 is_active := true; token_version := token_version_ |} in
  id_taken ← gets (λ w, bool_decide (is_Some (users w !! id_)));
  email_taken ← email_exists email_;
  if id_taken || email_taken then raise (Foreign "IntegrityError")
  else
    _ ← modify (set_users (<[id_ := user]>));
    mret user.

(** The example's [update_password] assigns the hash and nothing else. *)
Definition update_password (user : User) (hashed_password_ : string) : M User :=
  let user := User_set_hashed_password user hashed_password_ in
  _ ← modify (set_users (<[id user := user]>));
  mret user.

End UserRepository.

(** [user/service.py]. The value of [create_user] and [get_user_by_id] is
    the user the response schema is validated from. *)
Module UserService.
Section service.
Context `{Externals}.

Definition create_user (env : Env) (token_version_ : Z) (user_data : UserCreate)
  : M User :=
  taken ← UserRepository.email_exists (uc_email user_data);
  if (taken : bool) then raise (App (EmailAlreadyExists (uc_email user_data)))
  else
    hashed ← hash_password (salt env) (uc_password user_data);
    UserRepository.create_user (uuid7_row env) token_version_
      (uc_email user_data) hashed.

Definition get_user_by_id (user_id_ : UUID) : M User :=
  user ← UserRepository.get_by_id user_id_;
  match user with
  | None => raise (App (UserNotFound (uuid_str user_id_)))
  | Some user => mret user
  end.

(** [salt'] is the salt [hash_password] draws, [salt env] the one a re-hash
    inside [verify_password] would draw. *)
Definition change_password (env : Env) (salt' : string) (user : User)
  (current_password new_password : string) : M () :=
  '(is_valid, _) ← verify_password (salt env) current_password (hashed_password user);
  if negb is_valid then raise (App InvalidCredentials)
  else
    hashed ← hash_password salt' new_password;
    _ ← UserRepository.update_password user hashed;
    mret ().

End service.
End UserService.

(** [auth/service.py]. The value of [authenticate] is
    [(access_token, user)]. *)
Module AuthService.
Section service.
Context `{Externals}.

(** [if new_hash:] holds for a string that is not empty. *)
Definition truthy (s : option string) : bool :=
  match s with
  | Some h => negb (bool_decide (h = ""))
  | None => false
  end.

Definition authenticate (env : Env) (email_ password : string)
  : M (string * User) :=
  user ← UserRepository.get_by_email email_;
  let stored_hash := hashed_password <$> user in
  '(is_valid, new_hash) ←
    verify_password_with_timing_safety (salt env) password stored_hash;
  match is_valid, user with
  | true, Some user =>
      if negb (is_active user) then raise (App InvalidCredentials) else
      user ← (if truthy new_hash
               then UserRepository.update_password user (default "" new_hash)
               else mret user);
      let access_token := create_access_token (now env) (id user) None in
      mret (access_token, user)
  | _, _ => raise (App InvalidCredentials)
  end.

End service.
End AuthService.

End Minimal.

(** ** [services/user.py] of the full backend *)

Module UserService.
Section service.
Context `{Externals}.

(** [salt'] is the salt [hash_password] draws, [salt env] the one a re-hash
    inside [verify_password] would draw. *)
Definition change_password (env : Env) (salt' : string) (user : User)
  (current_password new_password : string) : M () :=
  '(is_valid, _) ← verify_password (salt env) current_password (hashed_password user);
  if negb is_valid then raise (App InvalidCredentials)
  else
    hashed ← hash_password salt' new_password;
    _ ← UserRepository.update_password user hashed;
    mret ().

End service.
End UserService.

(** ** The issuer and the validator of the full backend *)

Module FullBackend.
Section security.
Context `{Externals}.

(** Modelled from the spec: the claim set of
    [create_access_token(user_id, token_version, extra_claims)] of the full
    backend's [core/security.py], which is absent; [services/auth.py] calls
    it with [user.id] and [user.token_version]. Spec 4.1,
    [issue_access_token]: the claim set
    [{sub: user_id, type: "access", iat: now, exp: now + TTL,
      ver: token_version, ...extra}]; the extra claims come last, so that on
    a shared key the extra claim stands. [sub] is the text of the id and the
    TTL is [ACCESS_TOKEN_EXPIRE_MINUTES], as in the example. *)
Definition access_token_payload (now : datetime) (user_id : UUID)
  (token_version_ : Z) (extra_claims : option Claims) : Claims :=
  default ∅ extra_claims ∪
  ({[ "sub" := VStr (uuid_str user_id);
      "type" := VStr TokenType_ACCESS;
      "iat" := VInt now;
      "exp" := VInt (now + 60 * ACCESS_TOKEN_EXPIRE_MINUTES settings);
      "ver" := VInt token_version_ ]} : Claims).

(** Modelled from the spec: [create_access_token] of the full backend's
    [core/security.py], which is absent. Spec 4.1: the claim set is signed
    with the server secret under a symmetric MAC algorithm. *)
Definition create_access_token (now : datetime) (user_id : UUID)
  (token_version_ : Z) (extra_claims : option Claims) : string :=
  jwt_encode (access_token_payload now user_id token_version_ extra_claims)
    (SECRET_KEY settings) (JWT_ALGORITHM settings).

(** Modelled from the spec: [get_current_user] of the full backend's
    [core/dependencies.py], which is absent. Spec 4.1: the caller of
    [decode_access_token] rejects the token if [type != "access"] and if
    [claims.ver != user.token_version], the version check being the
    caller's and not the codec's; both rejections are token errors. What
    the spec leaves open (how [sub] is read and the user loaded, and the
    message of the version error) follows the example's function. *)
Definition get_current_user (now : datetime) (token : string) : M User :=
  match decode_access_token now token with
  | inl e => raise (App (TokenError e))
  | inr payload =>
      if bool_decide (payload !! "type" ≠ Some (VStr TokenType_ACCESS)) then
        raise (App (TokenError "Invalid token type"))
      else
        match payload !! "sub" with
        | None => raise (Foreign "KeyError")
        | Some (VInt _) => raise (Foreign "AttributeError")
        | Some (VStr sub) =>
            match uuid_parse sub with
            | None => raise (Foreign "ValueError")
            | Some user_id_ =>
                user ← UserRepository.get_by_id user_id_;
                match user with
                | None => raise (App (UserNotFound (uuid_str user_id_)))
                | Some user =>
                    if bool_decide
                         (payload !! "ver" ≠ Some (VInt (token_version user)))
                    then raise (App (TokenError "Invalid token version"))
                    else mret user
                end
            end
        end
  end.

End security.
End FullBackend.

(** ** [routes/auth.py] of the full backend *)

(** [UserResponse] of the full backend's [schemas/user.py], which is absent:
    the type of the view, and what [UserResponse.model_validate] makes of a
    user (pydantic raises [ValidationError] on a user the schema refuses). *)
Class Schemas : Type := mkSchemas {
  UserResponse : Type;
  UserResponse_model_validate : User → result UserResponse
}.

(** A library call that touches no table: its value or its exception. *)
Definition of_result {A : Type} (r : result A) : M A := λ w, (r, w).

(** [AuthService.login] of [services/auth.py]: the triple of
    [authenticate], with the user turned into the view of the
    [TokenWithUserResponse]. The value is the response's [access_token] and
    [user], beside the raw refresh token. *)
Definition AuthService_login `{Externals} `{Schemas} (env : Env)
  (email_ password : string) (device_id_ device_name_ ip_address_ : option string)
  : M (string * UserResponse * string) :=
  '(access_token, refresh_token, user) ←
    AuthService.authenticate env email_ password device_id_ device_name_
      ip_address_;
  user_view ← of_result (UserResponse_model_validate user);
  mret (access_token, user_view, refresh_token).

(** What a route does to the refresh cookie of its response: the call of
    [set_refresh_cookie] or [clear_refresh_cookie] it makes. *)
Inductive CookieAction : Type :=
| SetRefreshCookie (refresh_token : string)
| ClearRefreshCookie.

(** [if not refresh_token:] holds for a missing cookie and for an empty
    one. *)
Definition cookie_missing (refresh_token : option string) : bool :=
  match refresh_token with
  | Some c => bool_decide (c = "")
  | None => true
  end.

Module AuthRoutes.
Section routes.
Context `{Externals} `{Schemas}.

(** [@limiter.limit(settings.RATE_LIMIT_AUTH)] wraps the route: the limiter
    of [core/rate_limit.py], which is absent, decides before the body runs,
    and [over_limit] is its decision for this request; slowapi refuses with
    [RateLimitExceeded]. The body passes the raw refresh token of
    [AuthService.login] to [set_refresh_cookie] and returns the response.
    The value is the response's [access_token] and [user], and the cookie
    call. *)
Definition login (env : Env) (over_limit : bool) (ip : option string)
  (username password : string) : M (string * UserResponse * CookieAction) :=
  if over_limit then raise (Foreign "RateLimitExceeded")
  else
    '(result, refresh_token) ←
      AuthService_login env username password None None ip;
    mret (result, SetRefreshCookie refresh_token).

(** The value is the [access_token] of the [TokenResponse], which is all the
    route returns: it makes no cookie call. *)
Definition refresh_token (env : Env) (ip : option string)
  (refresh_token : option string) : M string :=
  if cookie_missing refresh_token then
    raise (App (TokenError "Refresh token required"))
  else
    AuthService.refresh_tokens env (default "" refresh_token) None None ip.

(** The value is the cookie call the route makes after the service
    returned. *)
Definition logout (refresh_token : option string) : M CookieAction :=
  if cookie_missing refresh_token then
    raise (App (TokenError "Refresh token required"))
  else
    _ ← AuthService.logout (default "" refresh_token);
    mret ClearRefreshCookie.

End routes.
End AuthRoutes.

(** ** Notions for the further properties *)

(** The users table is keyed by [id] and holds each email once. *)
Definition users_wf (m : gmap UUID User) : Prop :=
  (∀ k u, m !! k = Some u → id u = k) ∧
  (∀ k1 k2 u1 u2, m !! k1 = Some u1 → m !! k2 = Some u2 →
                  email u1 = email u2 → k1 = k2).

(** A request to the authentication service of the full backend. *)
Inductive Request : Type :=
| Login (email_ password : string) (device_id_ device_name_ ip_address_ : option string)
| Refresh (refresh_token : string) (device_id_ device_name_ ip_address_ : option string)
| Logout (refresh_token : string)
| LogoutAll (user : User)
| ChangePassword (salt' : string) (user : User) (current_password new_password : string).

(** The state a request leaves, whether it returned or raised. *)
Definition serve `{Externals} (env : Env) (r : Request) (w : World) : World :=
  match r with
  | Login e p d1 d2 d3 => snd (AuthService.authenticate env e p d1 d2 d3 w)
  | Refresh t d1 d2 d3 => snd (AuthService.refresh_tokens env t d1 d2 d3 w)
  | Logout t => snd (AuthService.logout t w)
  | LogoutAll u => snd (AuthService.logout_all env u w)
  | ChangePassword s u c n => snd (UserService.change_password env s u c n w)
  end.

(** The worlds reached from one without refresh tokens by requests served
    at instants that do not go back, each login drawing a family id no row
    carries yet; the index is the instant of the last request. *)
Inductive reachable `{Externals} : datetime → World → Prop :=
| reachable_start t w :
    refresh_tokens w = [] → reachable t w
| reachable_step t w env r :
    reachable t w →
    t ≤ now env →
    (∀ x, x ∈ refresh_tokens w → family_id x ≠ uuid7_family env) →
    reachable (now env) (serve env r w).

(** The user a request acts for is a row of the table. *)
Definition request_user_stored (r : Request) (w : World) : Prop :=
  match r with
  | LogoutAll u | ChangePassword _ u _ _ => users w !! id u = Some u
  | _ => True
  end.

(** The change a request may make to a row: the password hash and the token
    version, the latter never downwards. *)
Definition same_identity (u u' : User) : Prop :=
  id u' = id u ∧ email u' = email u ∧ is_active u' = is_active u ∧
  token_version u ≤ token_version u'.

(** The user the example's [authenticate] goes on with: the stored one, or
    the one re-hashed when the hasher returned an upgraded hash. *)
Definition minimal_after_rehash (user : User) (upgraded : option string) : User :=
  if Minimal.AuthService.truthy upgraded
  then User_set_hashed_password user (default "" upgraded)
  else user.

Section further_notions.
Context `{Externals}.

(** The one call [authenticate] hands to the hasher. *)
Definition login_hasher_call (email_ password : string) (w : World) : HasherCall :=
  match found_user email_ w with
  | None => CallVerify password DUMMY_HASH
  | Some user => CallVerifyAndUpdate password (hashed_password user)
  end.

(** The row a successful login inserts. *)
Definition login_token (env : Env) (user : User) (d1 d2 d3 : option string)
  : RefreshToken :=
  {| rt_id := uuid7_row env; user_id := id user;
     token_hash := hash_token (token_urlsafe env);
     family_id := uuid7_family env;
     expires_at := now env + 86400 * REFRESH_TOKEN_EXPIRE_DAYS settings;
     is_revoked := false; device_id := d1; device_name := d2; ip_address := d3 |}.

(** The state a successful login leaves. *)
Definition after_login (env : Env) (password : string) (user : User)
  (upgraded : option string) (d1 d2 d3 : option string) (w : World) : World :=
  {| users := if AuthService.truthy upgraded
              then <[id user := after_rehash user upgraded]> (users w)
              else users w;
     refresh_tokens := refresh_tokens w ++ [login_token env user d1 d2 d3];
     hasher_calls := hasher_calls w
                     ++ [CallVerifyAndUpdate password (hashed_password user)] |}.

(** The row a registration stores. *)
Definition registered (env : Env) (token_version_ : Z) (d : Minimal.UserCreate)
  : User :=
  {| id := uuid7_row env; email := Minimal.uc_email d;
     hashed_password := ph_hash password_hasher (salt env) (Minimal.uc_password d);
     is_active := true; token_version := token_version_ |}.

(** The row a successful password change stores. *)
Definition with_new_password (salt' : string) (user : User) (new_password : string)
  : User :=
  User_increment_token_version
    (User_set_hashed_password user (ph_hash password_hasher salt' new_password)).

End further_notions.

(** ** A small instance of the interface, for concrete runs *)

Module Demo.

(** A hasher that marks a hash with [$] and keeps the password behind it
    (the salt is not used); a string without the mark is no hash. *)
Definition hasher : PasswordHash :=
  {| ph_hash := λ _ password, String "$"%char password;
     ph_verify := λ password hash,
       match hash with
       | String "$"%char stored => Ok (bool_decide (stored = password))
       | _ => Raise (Foreign "UnknownHashError")
       end;
     ph_verify_and_update := λ _ password hash,
       match hash with
       | String "$"%char stored => Ok (bool_decide (stored = password), None)
       | _ => Raise (Foreign "UnknownHashError")
       end |}.

(** [str(uuid)]: the 32 lower-case hexadecimal digits of the 128-bit value,
    in groups of 8, 4, 4, 4 and 12. *)
Definition hex_digit (n : N) : ascii :=
  ascii_of_N (if (n <? 10)%N then 48 + n else 87 + n)%N.

Fixpoint hex (digits : nat) (n : N) : string :=
  match digits with
  | O => EmptyString
  | S d => hex d (n / 16)%N +:+ String (hex_digit (n mod 16)%N) EmptyString
  end.

Definition canonical (u : UUID) : string :=
  let h := hex 32 u in
  substring 0 8 h +:+ "-" +:+ substring 8 4 h +:+ "-" +:+ substring 12 4 h
    +:+ "-" +:+ substring 16 4 h +:+ "-" +:+ substring 20 12 h.

Definition hex_value (a : ascii) : option N :=
  let n := N_of_ascii a in
  if ((48 <=? n) && (n <=? 57))%N then Some (n - 48)%N
  else if ((97 <=? n) && (n <=? 102))%N then Some (n - 87)%N
  else if ((65 <=? n) && (n <=? 70))%N then Some (n - 55)%N
  else None.

Fixpoint of_hex (s : string) (acc : N) : option N :=
  match s with
  | EmptyString => Some acc
  | String a s' => v ← hex_value a; of_hex s' (16 * acc + v)%N
  end.

(** [uuid.UUID(text)] on the canonical text and on the text without
    hyphens: the hyphens are dropped and 32 hexadecimal digits must remain
    ([ValueError] otherwise). The other spellings the library reads (braces,
    the [urn:uuid:] prefix) occur in no run below and are refused here. *)
Definition of_canonical (s : string) : option UUID :=
  let digits :=
    string_of_list_ascii
      (filter (λ a, a ≠ "-"%char) (list_ascii_of_string s)) in
  if bool_decide (String.length digits = 32%nat) then of_hex digits 0%N
  else None.

(** The claims of the one token the decoder below accepts: an access token
    of user 7 issued under [token_version] 2. *)
Definition stale_claims : Claims :=
  {[ "sub" := VStr "00000000-0000-0000-0000-000000000007";
     "type" := VStr "access"; "iat" := VInt 900;
     "exp" := VInt 2700; "ver" := VInt 2 ]}.

(** The claims of a well-signed token whose [type] is not [access]. *)
Definition other_claims : Claims :=
  {[ "sub" := VStr "00000000-0000-0000-0000-000000000007";
     "type" := VStr "refresh"; "iat" := VInt 900;
     "exp" := VInt 2700 ]}.

Definition decode (token key : string) (algorithms : list Algorithm)
  (required : list string) (now : datetime) : string + Claims :=
  if bool_decide (token = "stale.access.token") then inr stale_claims
  else if bool_decide (token = "other.type.token") then inr other_claims
  else inl "Not enough segments".

#[local] Instance externals : Externals :=
  {| password_hasher := hasher;
     DUMMY_SALT := "salt0";
     jwt_encode := λ _ _ _, "stale.access.token";
     jwt_decode := decode;
     uuid_str := canonical;
     uuid_parse := of_canonical;
     hash_token := λ raw, "sha256:" +:+ raw;
     create_versioned_access_token := λ _ _ _, "stale.access.token";
     TOKEN_REVOKED_MESSAGE := "Token has been revoked";
     settings := {| SECRET_KEY := "0123456789abcdef0123456789abcdef";
                    JWT_ALGORITHM := HS256;
                    ACCESS_TOKEN_EXPIRE_MINUTES := 30;
                    REFRESH_TOKEN_EXPIRE_DAYS := 7 |} |}.

(** User 7, active, at [token_version] 3. *)
Definition alice : User :=
  {| id := 7%N; email := "alice@example.com"; hashed_password := "$Passw0rd!";
     is_active := true; token_version := 3 |}.

(** User 8, deactivated. *)
Definition bob : User :=
  {| id := 8%N; email := "bob@example.com"; hashed_password := "$Hunter2A";
     is_active := false; token_version := 0 |}.

Definition token (id_ user_id_ : UUID) (raw : string) (family_id_ : UUID)
  (expires_at_ : datetime) (revoked : bool) : RefreshToken :=
  {| rt_id := id_; user_id := user_id_; token_hash := "sha256:" +:+ raw;
     family_id := family_id_; expires_at := expires_at_; is_revoked := revoked;
     device_id := None; device_name := None; ip_address := None |}.

(** Alice holds family 100 (rotated once: [r1] revoked, [r2] live) and
    family 200 ([r3] live); [r4] of family 300 has expired unrevoked. *)
Definition world : World :=
  {| users := {[ 7%N := alice; 8%N := bob ]};
     refresh_tokens :=
       [ token 1%N 7%N "r1" 100%N 5000 true;
         token 2%N 7%N "r2" 100%N 6000 false;
         token 3%N 7%N "r3" 200%N 6000 false;
         token 4%N 7%N "r4" 300%N 500 false ];
     hasher_calls := [] |}.

Definition env : Env :=
  {| now := 1000; salt := "salt1"; token_urlsafe := "r9";
     uuid7_family := 400%N; uuid7_row := 9%N |}.

(** A view of the user that keeps the id, the email and the active flag,
    made of every user. *)
Record UserView : Type := mkUserView {
  view_id : UUID;
  view_email : string;
  view_is_active : bool
}.

#[local] Instance schemas : Schemas :=
  {| UserResponse := UserView;
     UserResponse_model_validate := λ user,
       Ok {| view_id := id user; view_email := email user;
             view_is_active := is_active user |} |}.

End Demo.

(** A second instance, whose JWT library knows one token: the access token
    issued to user 7 at instant 1000 for 30 minutes, which it decodes until
    it expires. *)
Module Issued.

Definition issued_claims : Claims :=
  {[ "sub" := VStr "00000000-0000-0000-0000-000000000007";
     "type" := VStr "access"; "iat" := VInt 1000;
     "exp" := VInt 2800 ]}.

Definition decode (token key : string) (algorithms : list Algorithm)
  (required : list string) (now : datetime) : string + Claims :=
  if bool_decide (token = "fresh.access.token") then
    if bool_decide (now < 2800) then inr issued_claims
    else inl "Signature has expired"
  else inl "Not enough segments".

#[local] Instance externals : Externals :=
  {| password_hasher := Demo.hasher;
     DUMMY_SALT := "salt0";
     jwt_encode := λ _ _ _, "fresh.access.token";
     jwt_decode := decode;
     uuid_str := Demo.canonical;
     uuid_parse := Demo.of_canonical;
     hash_token := λ raw, "sha256:" +:+ raw;
     create_versioned_access_token := λ _ _ _, "fresh.access.token";
     TOKEN_REVOKED_MESSAGE := "Token has been revoked";
     settings := {| SECRET_KEY := "0123456789abcdef0123456789abcdef";
                    JWT_ALGORITHM := HS256;
                    ACCESS_TOKEN_EXPIRE_MINUTES := 30;
                    REFRESH_TOKEN_EXPIRE_DAYS := 7 |} |}.

End Issued.

(** A third instance, whose JWT library writes the claims out and reads
    them back: a token is its claims, one [key=value;] each (a string value
    behind [s], an integer behind [i]), then a bar and the key it was signed
    with. Its access tokens of the full backend are the modelled ones. *)
Module Codec.

Definition render_value (v : ClaimValue) : string :=
  match v with
  | VStr s => String "s"%char s
  | VInt z => String "i"%char (DecimalString.NilZero.string_of_int (Z.to_int z))
  end.

Definition render (payload : Claims) : string :=
  foldr (λ '(k, v) acc, k +:+ "=" +:+ render_value v +:+ ";" +:+ acc)
    EmptyString (map_to_list payload).

Definition split (c : ascii) (s : string) : list string :=
  string_of_list_ascii <$>
    foldr (λ a acc, if decide (a = c) then [] :: acc
                    else match acc with
                         | h :: t => (a :: h) :: t
                         | [] => [[a]]
                         end)
      [[]] (list_ascii_of_string s).

Definition parse_value (s : string) : option ClaimValue :=
  match s with
  | String "s"%char s' => Some (VStr s')
  | String "i"%char s' =>
      (λ d, VInt (Z.of_int d)) <$> DecimalString.NilZero.int_of_string s'
  | _ => None
  end.

Definition parse_claim (s : string) : option (string * ClaimValue) :=
  match split "="%char s with
  | [k; v] => pair k <$> parse_value v
  | _ => None
  end.

Definition parse (body : string) : option Claims :=
  list_to_map <$>
    mapM parse_claim (filter (λ piece, piece ≠ EmptyString) (split ";"%char body)).

Definition encode (payload : Claims) (key : string) (algorithm : Algorithm)
  : string :=
  render payload +:+ "|" +:+ key.

(** [jwt.decode]: the signature, then the required claims, then the
    expiry. *)
Definition decode (token key : string) (algorithms : list Algorithm)
  (required : list string) (now : datetime) : string + Claims :=
  match split "|"%char token with
  | [body; tag] =>
      if bool_decide (tag ≠ key) then inl "Signature verification failed"
      else
        match parse body with
        | None => inl "Invalid payload string"
        | Some claims =>
            match filter (λ k, claims !! k = None) required with
            | k :: _ => inl ("Token is missing the " +:+ k +:+ " claim")
            | [] =>
                match claims !! "exp" with
                | Some (VInt exp) =>
                    if bool_decide (exp ≤ now) then inl "Signature has expired"
                    else inr claims
                | _ => inl "Expiration Time claim (exp) must be an integer."
                end
            end
        end
  | _ => inl "Not enough segments"
  end.

Definition with_issuer (issuer : datetime → UUID → Z → string) : Externals :=
  {| password_hasher := Demo.hasher;
     DUMMY_SALT := "salt0";
     jwt_encode := encode;
     jwt_decode := decode;
     uuid_str := Demo.canonical;
     uuid_parse := Demo.of_canonical;
     hash_token := λ raw, "sha256:" +:+ raw;
     create_versioned_access_token := issuer;
     TOKEN_REVOKED_MESSAGE := "Token has been revoked";
     settings := {| SECRET_KEY := "0123456789abcdef0123456789abcdef";
                    JWT_ALGORITHM := HS256;
                    ACCESS_TOKEN_EXPIRE_MINUTES := 30;
                    REFRESH_TOKEN_EXPIRE_DAYS := 7 |} |}.

#[local] Instance externals : Externals :=
  with_issuer
    (λ now user_id token_version_,
       @FullBackend.create_access_token (with_issuer (λ _ _ _, EmptyString))
         now user_id token_version_ None).

End Codec.

(** A fourth instance, whose hasher refuses a password that has no UTF-8
    encoding. A Python [str] is held here as its UTF-8 bytes, and a lone
    surrogate, for which UTF-8 has no encoding, as the three bytes
    [0xED 0xA0..0xBF 0x80..0xBF] that only a surrogate gives. pwdlib's
    Argon2 hasher hands a [str] password to argon2-cffi, which encodes it as
    UTF-8 first; the [UnicodeEncodeError] of a lone surrogate is none of the
    verification errors the hasher catches, so [verify] and
    [verify_and_update] raise it. *)
Module Strict.

Fixpoint encodable (s : string) : bool :=
  match s with
  | EmptyString => true
  | String a rest =>
      match rest with
      | String b _ =>
          if bool_decide (a = "237"%char) && (160 <=? N_of_ascii b)%N then false
          else encodable rest
      | EmptyString => true
      end
  end.

(** The one-character string [U+D800]. *)
Definition lone_surrogate : string :=
  String "237"%char (String "160"%char (String "128"%char EmptyString)).

Definition hasher : PasswordHash :=
  {| ph_hash := ph_hash Demo.hasher;
     ph_verify := λ password hash,
       if encodable password then ph_verify Demo.hasher password hash
       else Raise (Foreign "UnicodeEncodeError");
     ph_verify_and_update := λ salt password hash,
       if encodable password then ph_verify_and_update Demo.hasher salt password hash
       else Raise (Foreign "UnicodeEncodeError") |}.

#[local] Instance externals : Externals :=
  {| password_hasher := hasher;
     DUMMY_SALT := @DUMMY_SALT Demo.externals;
     jwt_encode := @jwt_encode Demo.externals;
     jwt_decode := @jwt_decode Demo.externals;
     uuid_str := @uuid_str Demo.externals;
     uuid_parse := @uuid_parse Demo.externals;
     hash_token := @hash_token Demo.externals;
     create_versioned_access_token := @create_versioned_access_token Demo.externals;
     TOKEN_REVOKED_MESSAGE := @TOKEN_REVOKED_MESSAGE Demo.externals;
     settings := @settings Demo.externals |}.

End Strict.

(** * Properties *)

(** Unfolds the monad so that a run is a term over worlds. *)
Ltac run_M :=
  unfold mbind, mret, M_bind, M_ret, raise, try_except, gets, modify, to_thread
    in *; simpl in *.

Arguments verify_password : simpl never.
Arguments verify_password_with_timing_safety : simpl never.

Lemma demo_verify_returns : verify_returns_on_own_hashes Demo.hasher.
Proof. intros s p q. simpl. eauto. Qed.

Lemma demo_accepts_own_hashes : accepts_own_hashes Demo.hasher.
Proof.
  intros s s' p. exists None. simpl.
  by rewrite bool_decide_eq_true_2.
Qed.

(** ** The password helpers *)

Section security_properties.
Context `{Externals}.

(** The run of [verify_password], by the outcome of the hasher. *)
Lemma verify_password_run salt plain hashed w :
  verify_password salt plain hashed w =
  (Ok match ph_verify_and_update password_hasher salt plain hashed with
      | Ok r => r
      | Raise _ => (false, None)
      end,
   log_call (CallVerifyAndUpdate plain hashed) w).
Proof.
  unfold verify_password. run_M.
  by destruct (ph_verify_and_update _ _ _ _).
Qed.

(** C10. [verify_password] is total: for every plaintext and every stored
    string it returns a pair and raises nothing; when the underlying
    verifier raises (a malformed or foreign hash string) the pair is
    [(False, None)], and when it returns, its value is handed on. *)
Theorem verify_password_never_raises salt plain hashed w :
  ∃ r w',
    verify_password salt plain hashed w = (Ok r, w') ∧
    (∀ e, ph_verify_and_update password_hasher salt plain hashed = Raise e →
          r = (false, None)) ∧
    (∀ v, ph_verify_and_update password_hasher salt plain hashed = Ok v →
          r = v).
Proof.
  rewrite verify_password_run. eexists _, _. split; [reflexivity|].
  split; intros ? ->; reflexivity.
Qed.

(** C9. Round trip: the string [hash_password] produces for a password is
    accepted by [verify_password] with the same password, whatever salts
    are drawn, for every password (so for every one within the length
    bounds), given a hasher that accepts its own fresh hashes. *)
Theorem hash_then_verify_round_trip salt salt' password w :
  accepts_own_hashes password_hasher →
  ∃ hashed w1 upgraded w2,
    hash_password salt password w = (Ok hashed, w1) ∧
    verify_password salt' password hashed w1 = (Ok (true, upgraded), w2).
Proof.
  intros Hph.
  destruct (Hph salt salt' password) as [upgraded Hup].
  exists (ph_hash password_hasher salt password), (log_call (CallHash password) w).
  eexists upgraded, _. split; [reflexivity|].
  rewrite verify_password_run, Hup. reflexivity.
Qed.

(** The run of the branch without a stored hash, for a hasher whose
    [verify] returns on its own hashes. *)
Lemma verify_absent_hash_run salt plain w :
  verify_returns_on_own_hashes password_hasher →
  verify_password_with_timing_safety salt plain None w
  = (Ok (false, None), log_call (CallVerify plain DUMMY_HASH) w).
Proof.
  intros Hph.
  destruct (Hph DUMMY_SALT "dummy_password_for_timing_attack_prevention" plain)
    as [b Hb].
  unfold verify_password_with_timing_safety. run_M.
  unfold DUMMY_HASH. by rewrite Hb.
Qed.

(** The run of the branch without a stored hash, for any hasher: the
    dummy verification is logged, its value is dropped, and its exception
    leaves the function. *)
Lemma verify_absent_hash_outcome salt plain w :
  verify_password_with_timing_safety salt plain None w
  = (match ph_verify password_hasher plain DUMMY_HASH with
     | Ok _ => Ok (false, None)
     | Raise e => Raise e
     end,
     log_call (CallVerify plain DUMMY_HASH) w).
Proof.
  unfold verify_password_with_timing_safety. run_M.
  by destruct (ph_verify _ _ _).
Qed.

(** Without any assumption on the hasher: the branch never yields
    [valid = True], and always logs exactly the dummy verification. *)
Lemma absent_hash_branch_outcome salt plain w :
  ∃ r,
    verify_password_with_timing_safety salt plain None w
    = (r, log_call (CallVerify plain DUMMY_HASH) w) ∧
    (r = Ok (false, None) ∨ ∃ e, r = Raise e).
Proof.
  unfold verify_password_with_timing_safety. run_M.
  destruct (ph_verify _ _ _); eauto.
Qed.

End security_properties.

Lemma verify_password_never_raises_demo :
  ∃ r w', @verify_password Demo.externals "s" "Passw0rd!" "not a hash" Demo.world
          = (Ok r, w') ∧ r = (false, None).
Proof.
  destruct (@verify_password_never_raises Demo.externals "s" "Passw0rd!"
              "not a hash" Demo.world) as (r & w' & Hrun & Hraise & _).
  exists r, w'. split; [exact Hrun|]. by eapply Hraise.
Defined.

Lemma hash_then_verify_round_trip_demo :
  accepts_own_hashes (@password_hasher Demo.externals) ∧
  ∃ hashed w1 upgraded w2,
    @hash_password Demo.externals "s1" "Passw0rd!" Demo.world = (Ok hashed, w1) ∧
    @verify_password Demo.externals "s2" "Passw0rd!" hashed w1
    = (Ok (true, upgraded), w2).
Proof.
  split; [exact demo_accepts_own_hashes|].
  apply (@hash_then_verify_round_trip Demo.externals "s1" "s2" "Passw0rd!"
           Demo.world).
  exact demo_accepts_own_hashes.
Defined.

(** C8. The claim fails on the code at a plaintext on which the hasher's
    [verify] raises, such as the one-character password [U+D800], which has
    no UTF-8 encoding. With an absent hash the dummy verification against
    [DUMMY_HASH] is made, but unguarded: its [UnicodeEncodeError] leaves
    [verify_password_with_timing_safety], which so returns no
    [(False, None)]. [verify_password], the path taken with a stored hash,
    catches the same exception of the same plaintext and returns
    [(False, None)]. *)
Theorem timing_safe_verify_raises_on_lone_surrogate :
  @verify_password_with_timing_safety Strict.externals "salt1"
    Strict.lone_surrogate None Demo.world
  = (Raise (Foreign "UnicodeEncodeError"),
     log_call (CallVerify Strict.lone_surrogate (@DUMMY_HASH Strict.externals))
       Demo.world) ∧
  @verify_password_with_timing_safety Strict.externals "salt1"
    Strict.lone_surrogate (Some (@DUMMY_HASH Strict.externals)) Demo.world
  = (Ok (false, None),
     log_call (CallVerifyAndUpdate Strict.lone_surrogate
                 (@DUMMY_HASH Strict.externals)) Demo.world) ∧
  @verify_password_with_timing_safety Strict.externals "salt1"
    "guess" None Demo.world
  = (Ok (false, None),
     log_call (CallVerify "guess" (@DUMMY_HASH Strict.externals)) Demo.world).
Proof. repeat split. Qed.

(** ** The refresh-token store *)

(** Revoking keeps every field but the flag. *)
Lemma RefreshToken_revoke_revoked t : is_revoked (RefreshToken_revoke t) = true.
Proof. reflexivity. Qed.

Lemma RefreshToken_revoke_not_live now t : is_live now (RefreshToken_revoke t) = false.
Proof. reflexivity. Qed.

Lemma RefreshToken_revoke_idemp t :
  RefreshToken_revoke (RefreshToken_revoke t) = RefreshToken_revoke t.
Proof. reflexivity. Qed.

(** A filter that no element passes is empty. *)
Lemma filter_none {A} (P : A → Prop) `{∀ x, Decision (P x)} (l : list A) :
  (∀ x, x ∈ l → ¬ P x) → filter P l = [].
Proof.
  induction l as [|x l IH]; intros Hl; [done|].
  rewrite filter_cons_False by (apply Hl; left).
  apply IH. intros y Hy. apply Hl. by right.
Qed.

(** Mapping by a function that lets nothing new pass cannot lengthen a
    filter. *)
Lemma length_filter_fmap_le {A} (P : A → Prop) `{∀ x, Decision (P x)}
  (f : A → A) (l : list A) :
  (∀ x, P (f x) → P x) →
  (length (filter P (f <$> l)) ≤ length (filter P l))%nat.
Proof.
  intros Hf. induction l as [|x l IH]; [done|].
  rewrite fmap_cons, !filter_cons.
  destruct (decide (P (f x))) as [HP|HP].
  - rewrite decide_True by auto. simpl. lia.
  - destruct (decide (P x)); simpl; lia.
Qed.

(** In a list of at most one element, two members are equal. *)
Lemma at_most_one_elem {A} (l : list A) x y :
  (length l ≤ 1)%nat → x ∈ l → y ∈ l → x = y.
Proof.
  destruct l as [|a [|b l]]; simpl; intros Hlen Hx Hy; [|..|lia].
  - by apply elem_of_nil in Hx.
  - apply list_elem_of_singleton in Hx, Hy. congruence.
Qed.

Lemma get_by_hash_run h w :
  RefreshTokenRepository.get_by_hash h w
  = (Ok (snd <$> list_find (λ t, token_hash t = h) (refresh_tokens w)), w).
Proof. reflexivity. Qed.

(** The record a lookup returns is a row with that hash. *)
Lemma get_by_hash_Some h w w' stored :
  RefreshTokenRepository.get_by_hash h w = (Ok (Some stored), w') →
  w' = w ∧ stored ∈ refresh_tokens w ∧ token_hash stored = h.
Proof.
  rewrite get_by_hash_run. intros [= Hfind <-]. split; [done|].
  destruct (list_find _ _) as [[i t]|] eqn:Hi; simplify_eq/=.
  apply list_find_Some in Hi as (Hl & Hh & _).
  split; [|done]. by eapply list_elem_of_lookup_2.
Qed.

(** A lookup after rows were revoked finds the same row, revoked or not as
    the revocation left it: revoking changes no hash and no position. *)
Lemma get_by_hash_after_revoke (P : RefreshToken → Prop) `{∀ t, Decision (P t)} h l :
  snd <$> list_find (λ t, token_hash t = h)
            ((λ t, if decide (P t) then RefreshToken_revoke t else t) <$> l)
  = (λ t, if decide (P t) then RefreshToken_revoke t else t)
      <$> (snd <$> list_find (λ t, token_hash t = h) l).
Proof.
  rewrite list_find_fmap.
  erewrite (list_find_ext _ (λ t, token_hash t = h)).
  - by destruct (list_find _ l) as [[i t]|].
  - intros t. simpl. by destruct (decide (P t)).
Qed.

(** ** Logout and replay detection *)

Section session_properties.
Context `{Externals}.

(** The three runs of [logout]. *)
Lemma logout_run refresh_token w :
  AuthService.logout refresh_token w =
  match snd <$> list_find (λ t, token_hash t = hash_token refresh_token)
                  (refresh_tokens w) with
  | Some stored =>
      if is_revoked stored then (Ok (), w)
      else (Ok (),
            set_refresh_tokens
              (fmap (λ t, if decide (rt_id t = rt_id stored)
                          then RefreshToken_revoke t else t)) w)
  | None => (Ok (), w)
  end.
Proof.
  unfold AuthService.logout. run_M.
  destruct (snd <$> list_find _ _) as [stored|]; [|done].
  by destruct (is_revoked stored).
Qed.

(** C7. [logout] returns [None] and raises nothing, whether the token's
    record is live, already revoked or absent, and a second [logout] with the
    same token leaves the state the first one produced. *)
Theorem logout_is_idempotent refresh_token w :
  fst (AuthService.logout refresh_token w) = Ok () ∧
  AuthService.logout refresh_token (snd (AuthService.logout refresh_token w))
  = (Ok (), snd (AuthService.logout refresh_token w)).
Proof.
  rewrite (logout_run refresh_token w).
  destruct (snd <$> list_find _ (refresh_tokens w)) as [stored|] eqn:Hfind.
  - destruct (is_revoked stored) eqn:Hrev; simpl.
    + split; [done|]. by rewrite logout_run, Hfind, Hrev.
    + split; [done|]. rewrite logout_run. simpl.
      rewrite (get_by_hash_after_revoke (λ t, rt_id t = rt_id stored)), Hfind.
      simpl. by rewrite decide_True.
  - simpl. split; [done|]. by rewrite logout_run, Hfind.
Qed.

(** What [logout] does to a record that was not yet revoked: it is revoked
    afterwards, whether or not it had expired. *)
Lemma logout_revokes refresh_token w stored :
  RefreshTokenRepository.get_by_hash (hash_token refresh_token) w
  = (Ok (Some stored), w) →
  RefreshToken_revoke stored
  ∈ refresh_tokens (snd (AuthService.logout refresh_token w)).
Proof.
  intros Hget. pose proof (get_by_hash_Some _ _ _ _ Hget) as (_ & Hin & _).
  rewrite get_by_hash_run in Hget. injection Hget as Hfind.
  rewrite logout_run, Hfind.
  destruct (is_revoked stored) eqn:Hrev; simpl.
  - destruct stored; simpl in *; subst. exact Hin.
  - apply list_elem_of_fmap. exists stored. by rewrite decide_True.
Qed.

(** The run of the replay branch. *)
Lemma refresh_tokens_replay_run env refresh_token d1 d2 d3 w stored :
  RefreshTokenRepository.get_by_hash (hash_token refresh_token) w
  = (Ok (Some stored), w) →
  is_revoked stored = true →
  AuthService.refresh_tokens env refresh_token d1 d2 d3 w
  = (Raise (App TokenRevokedError),
     set_refresh_tokens
       (fmap (λ t, if decide (family_id t = family_id stored)
                   then RefreshToken_revoke t else t)) w).
Proof.
  intros Hget Hrev. unfold AuthService.refresh_tokens.
  unfold mbind at 1, M_bind at 1. rewrite Hget, Hrev.
  by run_M.
Qed.

(** C1. When the presented refresh token hashes to a stored record that is
    already revoked, [refresh_tokens] fails with [TokenRevokedError], every
    row sharing the record's [family_id] is revoked afterwards, and no token
    is issued: the rows afterwards are the rows before (those of the family
    revoked, the others as they were), the users are untouched, and the
    call yields no access token. *)
Theorem refresh_replay_revokes_family env refresh_token d1 d2 d3 w stored :
  RefreshTokenRepository.get_by_hash (hash_token refresh_token) w
  = (Ok (Some stored), w) →
  is_revoked stored = true →
  ∃ w',
    AuthService.refresh_tokens env refresh_token d1 d2 d3 w
    = (Raise (App TokenRevokedError), w') ∧
    (∀ t, t ∈ refresh_tokens w' → family_id t = family_id stored →
          is_revoked t = true) ∧
    refresh_tokens w'
    = (λ t, if decide (family_id t = family_id stored)
            then RefreshToken_revoke t else t) <$> refresh_tokens w ∧
    length (refresh_tokens w') = length (refresh_tokens w) ∧
    token_hash <$> refresh_tokens w' = token_hash <$> refresh_tokens w ∧
    users w' = users w.
Proof.
  intros Hget Hrev.
  eexists. split; [by apply refresh_tokens_replay_run|].
  simpl. repeat split.
  - intros t Ht Hfam. apply list_elem_of_fmap in Ht as (t0 & -> & _).
    destruct (decide (family_id t0 = family_id stored)) as [|Hne]; [done|].
    by destruct Hne.
  - by rewrite length_fmap.
  - rewrite <- list_fmap_compose. apply list_fmap_ext.
    intros i t _. simpl. by destruct (decide _).
Qed.

(** After a replay was detected, a refresh with any token of that family,
    its last live successor included, fails with [TokenRevokedError] too. *)
Lemma refresh_after_replay_fails
  env refresh_token d1 d2 d3 w stored env' other e1 e2 e3 successor_record :
  RefreshTokenRepository.get_by_hash (hash_token refresh_token) w
  = (Ok (Some stored), w) →
  is_revoked stored = true →
  RefreshTokenRepository.get_by_hash (hash_token other) w
  = (Ok (Some successor_record), w) →
  family_id successor_record = family_id stored →
  fst (AuthService.refresh_tokens env' other e1 e2 e3
         (snd (AuthService.refresh_tokens env refresh_token d1 d2 d3 w)))
  = Raise (App TokenRevokedError).
Proof.
  intros Hget Hrev Hother Hfam.
  rewrite (refresh_tokens_replay_run _ _ _ _ _ _ _ Hget Hrev). simpl.
  erewrite (refresh_tokens_replay_run env' other e1 e2 e3 _
              (RefreshToken_revoke successor_record)); [done| |done].
  rewrite get_by_hash_run in Hother |- *. injection Hother as Hfind.
  simpl. rewrite (get_by_hash_after_revoke (λ t, family_id t = family_id stored)).
  rewrite Hfind. simpl. by rewrite decide_True.
Qed.

End session_properties.

Lemma logout_is_idempotent_demo :
  fst (@AuthService.logout Demo.externals "r2" Demo.world) = Ok () ∧
  @AuthService.logout Demo.externals "r2"
    (snd (@AuthService.logout Demo.externals "r2" Demo.world))
  = (Ok (), snd (@AuthService.logout Demo.externals "r2" Demo.world)).
Proof. exact (@logout_is_idempotent Demo.externals "r2" Demo.world). Defined.

Lemma refresh_replay_revokes_family_demo :
  @RefreshTokenRepository.get_by_hash "sha256:r1" Demo.world
  = (Ok (Some (Demo.token 1%N 7%N "r1" 100%N 5000 true)), Demo.world) ∧
  ∃ w',
    @AuthService.refresh_tokens Demo.externals Demo.env "r1" None None None
      Demo.world
    = (Raise (App (@TokenRevokedError Demo.externals)), w') ∧
    (∀ t, t ∈ refresh_tokens w' → family_id t = 100%N → is_revoked t = true).
Proof.
  split; [reflexivity|].
  destruct (@refresh_replay_revokes_family Demo.externals Demo.env "r1"
              None None None Demo.world
              (Demo.token 1%N 7%N "r1" 100%N 5000 true))
    as (w' & Hrun & Hfam & _); [reflexivity|reflexivity|].
  exists w'. split; [exact Hrun|exact Hfam].
Defined.

(** ** Rotation *)

Lemma family_invariantb_sound now l :
  family_invariantb now l = true → family_invariant now l.
Proof.
  intros Hb f. unfold family_invariantb in Hb.
  apply Is_true_true, forallb_True in Hb. rewrite Forall_forall in Hb.
  destruct (family_live now f l) as [|t rest] eqn:Hlive; [simpl; lia|].
  assert (Ht : t ∈ family_live now f l) by (rewrite Hlive; left).
  apply list_elem_of_filter in Ht as [[_ Hf] Hin].
  specialize (Hb t (proj1 (list_elem_of_In _ _) Hin)).
  apply bool_decide_unpack in Hb.
  rewrite Hf, Hlive in Hb. exact Hb.
Qed.

Section rotation_properties.
Context `{Externals}.

(** [refresh_tokens] succeeds exactly on a stored, unrevoked, unexpired
    record of an existing active user, and then rotates. *)
Lemma refresh_tokens_succeeds env refresh_token d1 d2 d3 w stored user :
  RefreshTokenRepository.get_by_hash (hash_token refresh_token) w
  = (Ok (Some stored), w) →
  is_live (now env) stored = true →
  users w !! user_id stored = Some user →
  is_active user = true →
  AuthService.refresh_tokens env refresh_token d1 d2 d3 w
  = (Ok (create_versioned_access_token (now env) (id user) (token_version user)),
     set_refresh_tokens (rotated env stored user d1 d2 d3) w).
Proof.
  intros Hget Hlive Huser Hactive.
  unfold is_live in Hlive. apply andb_true_iff in Hlive as [Hrev Hexp].
  apply negb_true_iff in Hrev, Hexp.
  unfold AuthService.refresh_tokens.
  unfold mbind at 1, M_bind at 1. rewrite Hget, Hrev, Hexp.
  unfold UserRepository.get_by_id. run_M.
  rewrite Huser, Hactive. simpl.
  unfold set_refresh_tokens, rotated, successor. simpl. reflexivity.
Qed.

Lemma refresh_tokens_success_inv env refresh_token d1 d2 d3 w access w' :
  AuthService.refresh_tokens env refresh_token d1 d2 d3 w = (Ok access, w') →
  ∃ stored user,
    RefreshTokenRepository.get_by_hash (hash_token refresh_token) w
    = (Ok (Some stored), w) ∧
    is_live (now env) stored = true ∧
    users w !! user_id stored = Some user ∧
    is_active user = true.
Proof.
  unfold AuthService.refresh_tokens.
  unfold mbind at 1, M_bind at 1. rewrite get_by_hash_run.
  destruct (snd <$> list_find _ _) as [stored|] eqn:Hfind; [|by run_M].
  destruct (is_revoked stored) eqn:Hrev; [by run_M|].
  destruct (is_expired (now env) stored) eqn:Hexp; [by run_M|].
  unfold UserRepository.get_by_id. run_M.
  destruct (users w !! user_id stored) as [user|] eqn:Huser; [|done].
  destruct (is_active user) eqn:Hactive; [|done].
  intros _. exists stored, user. repeat split; try done.
  unfold is_live. by rewrite Hrev, Hexp.
Qed.

(** The successor is live when the configured refresh lifetime is positive. *)
Lemma successor_live env stored user d1 d2 d3 :
  0 < REFRESH_TOKEN_EXPIRE_DAYS settings →
  is_live (now env) (successor env stored user d1 d2 d3) = true.
Proof.
  intros Hdays. unfold is_live, is_expired. simpl.
  rewrite bool_decide_eq_false_2; [done|lia].
Qed.

(** Revoking the one live member of a family leaves it no live member. *)
Lemma family_live_after_revoke now l stored :
  (length (family_live now (family_id stored) l) ≤ 1)%nat →
  stored ∈ l →
  is_live now stored = true →
  family_live now (family_id stored)
    ((λ t, if decide (rt_id t = rt_id stored) then RefreshToken_revoke t else t) <$> l)
  = [].
Proof.
  intros Hone Hin Hlive. apply filter_none.
  intros x Hx [Hxlive Hxfam].
  apply list_elem_of_fmap in Hx as (t & -> & Ht).
  destruct (decide (rt_id t = rt_id stored)) as [Heq|Hne]; [done|].
  apply Hne. f_equal.
  apply (at_most_one_elem _ _ _ Hone); apply list_elem_of_filter; auto.
Qed.

(** Revoking rows adds no live member to any family. *)
Lemma family_live_revoke_le now f (P : RefreshToken → Prop) `{∀ t, Decision (P t)} l :
  (length (family_live now f
             ((λ t, if decide (P t) then RefreshToken_revoke t else t) <$> l))
   ≤ length (family_live now f l))%nat.
Proof.
  apply length_filter_fmap_le. intros t.
  destruct (decide (P t)); [|done]. by intros [? _].
Qed.

(** C2. From a state with at most one live token per family, a successful
    [refresh_tokens] revokes the presented record and inserts one new row,
    live and of the same [family_id]; afterwards that row is the only live
    member of the family, and the invariant holds again. The configured
    refresh lifetime is positive. *)
Theorem refresh_rotation_preserves_family_invariant
  env refresh_token d1 d2 d3 w access w' :
  family_invariant (now env) (refresh_tokens w) →
  0 < REFRESH_TOKEN_EXPIRE_DAYS settings →
  AuthService.refresh_tokens env refresh_token d1 d2 d3 w = (Ok access, w') →
  ∃ stored new_token,
    RefreshTokenRepository.get_by_hash (hash_token refresh_token) w
    = (Ok (Some stored), w) ∧
    is_live (now env) stored = true ∧
    refresh_tokens w'
    = ((λ t, if decide (rt_id t = rt_id stored) then RefreshToken_revoke t else t)
         <$> refresh_tokens w) ++ [new_token] ∧
    RefreshToken_revoke stored ∈ refresh_tokens w' ∧
    family_id new_token = family_id stored ∧
    is_live (now env) new_token = true ∧
    family_live (now env) (family_id stored) (refresh_tokens w') = [new_token] ∧
    family_invariant (now env) (refresh_tokens w').
Proof.
  intros Hinv Hdays Hrun.
  destruct (refresh_tokens_success_inv _ _ _ _ _ _ _ _ Hrun)
    as (stored & user & Hget & Hlive & Huser & Hactive).
  rewrite (refresh_tokens_succeeds _ _ d1 d2 d3 _ _ _ Hget Hlive Huser Hactive)
    in Hrun.
  injection Hrun as _ <-. simpl.
  pose proof (get_by_hash_Some _ _ _ _ Hget) as (_ & Hin & _).
  pose proof (successor_live env stored user d1 d2 d3 Hdays) as Hnew.
  assert (Hfam : family_live (now env) (family_id stored)
                   (rotated env stored user d1 d2 d3 (refresh_tokens w))
                 = [successor env stored user d1 d2 d3]).
  { unfold rotated, family_live. rewrite list.filter_app.
    fold (family_live (now env) (family_id stored)
            ((λ t, if decide (rt_id t = rt_id stored)
                   then RefreshToken_revoke t else t) <$> refresh_tokens w)).
    rewrite (family_live_after_revoke _ _ _ (Hinv _) Hin Hlive).
    by rewrite filter_cons_True, filter_nil. }
  exists stored, (successor env stored user d1 d2 d3).
  repeat split; try done.
  - unfold rotated. apply elem_of_app. left.
    apply list_elem_of_fmap. exists stored. by rewrite decide_True.
  - intros f. destruct (decide (f = family_id stored)) as [->|Hne].
    + by rewrite Hfam.
    + unfold rotated, family_live. rewrite list.filter_app.
      rewrite filter_cons_False by (intros [_ ?]; by apply Hne).
      rewrite filter_nil, app_nil_r.
      etrans; [apply (family_live_revoke_le _ f (λ t, rt_id t = rt_id stored))|].
      apply Hinv.
Qed.

End rotation_properties.

Lemma refresh_rotation_demo :
  family_invariant (now Demo.env) (refresh_tokens Demo.world) ∧
  0 < REFRESH_TOKEN_EXPIRE_DAYS (@settings Demo.externals) ∧
  fst (@AuthService.refresh_tokens Demo.externals Demo.env "r2" None None None
         Demo.world) = Ok "stale.access.token" ∧
  family_invariant (now Demo.env)
    (refresh_tokens
       (snd (@AuthService.refresh_tokens Demo.externals Demo.env "r2"
               None None None Demo.world))).
Proof.
  assert (Hinv : family_invariant (now Demo.env) (refresh_tokens Demo.world))
    by (apply family_invariantb_sound; reflexivity).
  assert (Hdays : 0 < REFRESH_TOKEN_EXPIRE_DAYS (@settings Demo.externals))
    by reflexivity.
  split; [exact Hinv|]. split; [exact Hdays|]. split; [reflexivity|].
  destruct (@refresh_rotation_preserves_family_invariant Demo.externals
              Demo.env "r2" None None None Demo.world "stale.access.token"
              (snd (@AuthService.refresh_tokens Demo.externals Demo.env "r2"
                      None None None Demo.world)) Hinv Hdays eq_refl)
    as (stored & new_token & _ & _ & _ & _ & _ & _ & _ & Hafter).
  exact Hafter.
Defined.

(** ** Logout from all devices *)

Lemma logout_all_run env user w :
  AuthService.logout_all env user w =
  (Ok (Z.of_nat (live_count (now env) (id user) (refresh_tokens w))),
   set_refresh_tokens
     (fmap (λ t, if RefreshTokenRepository.live_of_user (now env) (id user) t
                 then RefreshToken_revoke t else t))
     (set_users (<[id user := User_increment_token_version user]>) w)).
Proof. reflexivity. Qed.

(** ** Login failures *)

Section login_properties.
Context `{Externals}.

Lemma get_by_email_run email_ w :
  UserRepository.get_by_email email_ w = (Ok (found_user email_ w), w).
Proof. reflexivity. Qed.

(** Unknown email: the dummy verification runs, then the login fails. *)
Lemma authenticate_unknown_email env email_ password d1 d2 d3 w :
  verify_returns_on_own_hashes password_hasher →
  found_user email_ w = None →
  AuthService.authenticate env email_ password d1 d2 d3 w
  = (Raise (App InvalidCredentials), log_call (CallVerify password DUMMY_HASH) w).
Proof.
  intros Hph Hnone. unfold AuthService.authenticate.
  unfold mbind at 1, M_bind at 1. rewrite get_by_email_run, Hnone. simpl.
  unfold mbind at 1, M_bind at 1.
  by rewrite (verify_absent_hash_run _ _ _ Hph).
Qed.

(** Known email, wrong password. *)
Lemma authenticate_wrong_password env email_ password d1 d2 d3 w user :
  found_user email_ w = Some user →
  wrong_password (salt env) password user →
  AuthService.authenticate env email_ password d1 d2 d3 w
  = (Raise (App InvalidCredentials),
     log_call (CallVerifyAndUpdate password (hashed_password user)) w).
Proof.
  intros Hsome Hwrong. unfold AuthService.authenticate.
  unfold mbind at 1, M_bind at 1. rewrite get_by_email_run, Hsome. simpl.
  unfold mbind at 1, M_bind at 1, verify_password_with_timing_safety.
  rewrite verify_password_run.
  destruct (ph_verify_and_update _ _ _ _) as [[[] upgraded]|e] eqn:Hv; try done.
  by destruct (Hwrong upgraded).
Qed.

(** Known email, inactive user, whatever the password. *)
Lemma authenticate_inactive env email_ password d1 d2 d3 w user :
  found_user email_ w = Some user →
  is_active user = false →
  AuthService.authenticate env email_ password d1 d2 d3 w
  = (Raise (App InvalidCredentials),
     log_call (CallVerifyAndUpdate password (hashed_password user)) w).
Proof.
  intros Hsome Hinactive. unfold AuthService.authenticate.
  unfold mbind at 1, M_bind at 1. rewrite get_by_email_run, Hsome. simpl.
  unfold mbind at 1, M_bind at 1, verify_password_with_timing_safety.
  rewrite verify_password_run.
  destruct (ph_verify_and_update _ _ _ _) as [[[] upgraded]|e]; try done.
  by rewrite Hinactive.
Qed.

(** Whatever [authenticate] raises is [InvalidCredentials]. *)
Lemma authenticate_raises_only_InvalidCredentials env email_ password d1 d2 d3 w e w' :
  verify_returns_on_own_hashes password_hasher →
  AuthService.authenticate env email_ password d1 d2 d3 w = (Raise e, w') →
  e = App InvalidCredentials.
Proof.
  intros Hph. destruct (found_user email_ w) as [user|] eqn:Hfound.
  - unfold AuthService.authenticate.
    unfold mbind at 1, M_bind at 1. rewrite get_by_email_run, Hfound. simpl.
    unfold mbind at 1, M_bind at 1, verify_password_with_timing_safety.
    rewrite verify_password_run.
    destruct (ph_verify_and_update _ _ _ _) as [[[] upgraded]|e0];
      try (intros [= <- _]; done).
    destruct (is_active user); simpl; [|intros [= <- _]; done].
    destruct (AuthService.truthy upgraded); run_M; intros [=].
  - rewrite (authenticate_unknown_email _ _ _ _ _ _ _ Hph Hfound).
    by intros [= <- _].
Qed.

(** A login with the right password of an active user succeeds: the access
    token is requested for the user's token version as it stands after a
    possible re-hash, and one live refresh token of a new family is stored
    for the user under the digest of the raw value returned. *)
Lemma authenticate_succeeds env email_ password d1 d2 d3 w user upgraded :
  0 < REFRESH_TOKEN_EXPIRE_DAYS settings →
  found_user email_ w = Some user →
  ph_verify_and_update password_hasher (salt env) password (hashed_password user)
  = Ok (true, upgraded) →
  is_active user = true →
  ∃ w' new_token,
    AuthService.authenticate env email_ password d1 d2 d3 w
    = (Ok (create_versioned_access_token (now env) (id user)
             (token_version (after_rehash user upgraded)),
           token_urlsafe env,
           after_rehash user upgraded), w') ∧
    (AuthService.truthy upgraded = true →
     users w' !! id user = Some (after_rehash user upgraded) ∧
     token_version (after_rehash user upgraded) = token_version user + 1) ∧
    (AuthService.truthy upgraded = false → users w' = users w) ∧
    refresh_tokens w' = refresh_tokens w ++ [new_token] ∧
    user_id new_token = id user ∧
    family_id new_token = uuid7_family env ∧
    token_hash new_token = hash_token (token_urlsafe env) ∧
    is_live (now env) new_token = true.
Proof.
  intros Hdays Hsome Hverify Hactive. unfold AuthService.authenticate.
  unfold mbind at 1, M_bind at 1. rewrite get_by_email_run, Hsome. simpl.
  unfold mbind at 1, M_bind at 1, verify_password_with_timing_safety.
  rewrite verify_password_run, Hverify, Hactive. simpl.
  unfold after_rehash.
  destruct (AuthService.truthy upgraded) eqn:Htruthy; run_M.
  - eexists _, _. split; [reflexivity|]. simpl.
    split; [intros _; split; [by rewrite lookup_insert_eq|done]|].
    split; [done|]. repeat split.
    unfold is_live, is_expired. simpl.
    rewrite bool_decide_eq_false_2; [done|lia].
  - eexists _, _. split; [reflexivity|]. simpl.
    split; [done|]. split; [done|]. repeat split.
    unfold is_live, is_expired. simpl.
    rewrite bool_decide_eq_false_2; [done|lia].
Qed.

End login_properties.

(** C3. The claim fails on the code at a password on which the hasher's
    [verify] raises, such as the one-character password [U+D800], which has
    no UTF-8 encoding. With an email that matches no user, the unguarded
    dummy verification of [verify_password_with_timing_safety] lets the
    [UnicodeEncodeError] through and [authenticate] raises it, not
    [InvalidCredentials]; with the email of a user, active or not,
    [verify_password] catches the same exception and [authenticate] raises
    [InvalidCredentials]. The error so tells the unknown email from the
    known one. With a password that can be encoded the three causes raise
    the one [InvalidCredentials]. *)
Theorem login_failure_differs_on_lone_surrogate :
  fst (@AuthService.authenticate Strict.externals Demo.env "carol@example.com"
         Strict.lone_surrogate None None None Demo.world)
  = Raise (Foreign "UnicodeEncodeError") ∧
  fst (@AuthService.authenticate Strict.externals Demo.env "alice@example.com"
         Strict.lone_surrogate None None None Demo.world)
  = Raise (App InvalidCredentials) ∧
  fst (@AuthService.authenticate Strict.externals Demo.env "bob@example.com"
         Strict.lone_surrogate None None None Demo.world)
  = Raise (App InvalidCredentials) ∧
  fst (@AuthService.authenticate Strict.externals Demo.env "carol@example.com"
         "Passw0rd!" None None None Demo.world)
  = Raise (App InvalidCredentials) ∧
  fst (@AuthService.authenticate Strict.externals Demo.env "alice@example.com"
         "wrong" None None None Demo.world)
  = Raise (App InvalidCredentials) ∧
  fst (@AuthService.authenticate Strict.externals Demo.env "bob@example.com"
         "Hunter2A" None None None Demo.world)
  = Raise (App InvalidCredentials).
Proof. repeat split. Qed.

(** ** Access tokens *)

Section token_properties.
Context `{Externals}.

Lemma access_token_payload_union now user_id_ extra_claims :
  access_token_payload now user_id_ extra_claims
  = default ∅ extra_claims ∪ fixed_claims now user_id_.
Proof.
  unfold access_token_payload, fixed_claims, TokenType_ACCESS.
  destruct extra_claims as [extra|]; simpl.
  - case_bool_decide as Hempty; [|done]. by rewrite Hempty, (left_id_L ∅ (∪)).
  - by rewrite (left_id_L ∅ (∪)).
Qed.

Lemma fixed_claims_no_ver now user_id_ : fixed_claims now user_id_ !! "ver" = None.
Proof. reflexivity. Qed.

(** The example's [create_access_token] signs, with [SECRET_KEY] under the
    configured HMAC algorithm, the claims [sub = str(user_id)],
    [type = "access"], [iat = now] and
    [exp = now + ACCESS_TOKEN_EXPIRE_MINUTES], updated with the extra claims
    (an extra claim wins over a fixed one of the same name). *)
Lemma example_access_token_claims now user_id_ extra_claims :
  create_access_token now user_id_ extra_claims
  = jwt_encode (default ∅ extra_claims ∪ fixed_claims now user_id_)
      (SECRET_KEY settings) (JWT_ALGORITHM settings) ∧
  symmetric (JWT_ALGORITHM settings) = true ∧
  dom (fixed_claims now user_id_) = ({[ "sub"; "type"; "iat"; "exp" ]} : gset string) ∧
  (∀ k, default ∅ extra_claims !! k = None →
        access_token_payload now user_id_ extra_claims !! k
        = fixed_claims now user_id_ !! k) ∧
  (∀ k v, default ∅ extra_claims !! k = Some v →
          access_token_payload now user_id_ extra_claims !! k = Some v) ∧
  access_token_payload now user_id_ extra_claims !! "ver"
  = default ∅ extra_claims !! "ver".
Proof.
  split; [|split; [|split; [|split; [|split]]]].
  - unfold create_access_token. by rewrite access_token_payload_union.
  - by destruct (JWT_ALGORITHM settings).
  - unfold fixed_claims. rewrite !dom_insert_L, dom_singleton_L. set_solver.
  - intros k Hk. rewrite access_token_payload_union.
    by rewrite lookup_union_r.
  - intros k v Hk. rewrite access_token_payload_union.
    by erewrite lookup_union_Some_l.
  - rewrite access_token_payload_union, lookup_union, fixed_claims_no_ver.
    by destruct (default ∅ extra_claims !! "ver").
Qed.

(** The run of [get_current_user] on a token that decodes. *)
Lemma get_current_user_type_mismatch now token payload w :
  decode_access_token now token = inr payload →
  payload !! "type" ≠ Some (VStr "access") →
  get_current_user now token w
  = (Raise (App (TokenError "Invalid token type")), w).
Proof.
  intros Hdecode Htype. unfold get_current_user. rewrite Hdecode.
  unfold TokenType_ACCESS. by rewrite bool_decide_eq_true_2.
Qed.

Lemma get_current_user_accepts now token payload w sub user_id_ user :
  decode_access_token now token = inr payload →
  payload !! "type" = Some (VStr "access") →
  payload !! "sub" = Some (VStr sub) →
  uuid_parse sub = Some user_id_ →
  users w !! user_id_ = Some user →
  get_current_user now token w = (Ok user, w).
Proof.
  intros Hdecode Htype Hsub Hparse Huser. unfold get_current_user.
  rewrite Hdecode. unfold TokenType_ACCESS.
  rewrite bool_decide_eq_false_2 by (intros Hne; by apply Hne).
  rewrite Hsub, Hparse. unfold UserRepository.get_by_id. run_M.
  by rewrite Huser.
Qed.

End token_properties.

(** * Further properties *)

(** ** Failing refreshes *)

Section refresh_failure_properties.
Context `{Externals}.

(** X1. A refresh that fails raises an exception of status 401: either
    [TokenRevokedError], on a revoked record, whose family is then revoked,
    or a [TokenError] with one of three messages, and then the state is the
    one before the call: an unknown, an expired or an orphaned token costs
    nothing and revokes nothing. *)
Theorem refresh_failure_is_401_and_frames env refresh_token d1 d2 d3 w e w' :
  AuthService.refresh_tokens env refresh_token d1 d2 d3 w = (Raise e, w') →
  ∃ exc,
    e = App exc ∧ status_code exc = 401 ∧
    ((exc = TokenRevokedError ∧
      ∃ stored,
        RefreshTokenRepository.get_by_hash (hash_token refresh_token) w
        = (Ok (Some stored), w) ∧
        is_revoked stored = true ∧
        refresh_tokens w'
        = (λ t, if decide (family_id t = family_id stored)
                then RefreshToken_revoke t else t) <$> refresh_tokens w) ∨
     (w' = w ∧
      (exc = TokenError "Invalid refresh token" ∨
       exc = TokenError "Refresh token expired" ∨
       exc = TokenError "User not found or inactive"))).
Proof.
  unfold AuthService.refresh_tokens.
  unfold mbind at 1, M_bind at 1. rewrite get_by_hash_run.
  destruct (snd <$> list_find _ _) as [stored|] eqn:Hfind.
  - destruct (is_revoked stored) eqn:Hrev.
    + run_M. intros [= <- <-]. eexists. split; [done|]. split; [done|].
      left. split; [done|]. by exists stored.
    + destruct (is_expired (now env) stored) eqn:Hexp.
      * run_M. intros [= <- <-]. eexists. split; [done|]. split; [done|].
        right. auto.
      * unfold UserRepository.get_by_id. run_M.
        destruct (users w !! user_id stored) as [user|].
        -- destruct (is_active user); simpl; [done|].
           intros [= <- <-]. eexists. split; [done|]. split; [done|].
           right. auto.
        -- intros [= <- <-]. eexists. split; [done|]. split; [done|].
           right. auto.
  - run_M. intros [= <- <-]. eexists. split; [done|]. split; [done|].
    right. auto.
Qed.

End refresh_failure_properties.

Lemma refresh_failure_demo :
  ∃ exc,
    fst (@AuthService.refresh_tokens Demo.externals Demo.env "r4" None None None
           Demo.world) = Raise (App exc) ∧
    status_code exc = 401 ∧
    snd (@AuthService.refresh_tokens Demo.externals Demo.env "r4" None None None
           Demo.world) = Demo.world.
Proof.
  destruct (@refresh_failure_is_401_and_frames Demo.externals Demo.env "r4"
              None None None Demo.world
              (App (TokenError "Refresh token expired")) Demo.world eq_refl)
    as (exc & Hexc & Hstatus & _).
  exists exc. split; [by rewrite <- Hexc|]. split; [exact Hstatus|reflexivity].
Defined.

(** ** The cost and the frame of a login *)

Section login_cost_properties.
Context `{Externals}.

(** X2. Every call of [authenticate], whatever its outcome and whatever the
    hasher does, hands the hasher exactly one verification: of the dummy
    hash for an unknown email, of the stored hash otherwise (also for an
    inactive user). A call that raises changes neither table. *)
Theorem login_makes_one_hasher_call env email_ password d1 d2 d3 w :
  hasher_calls (snd (AuthService.authenticate env email_ password d1 d2 d3 w))
  = hasher_calls w ++ [login_hasher_call email_ password w] ∧
  (∀ e, fst (AuthService.authenticate env email_ password d1 d2 d3 w) = Raise e →
        users (snd (AuthService.authenticate env email_ password d1 d2 d3 w))
        = users w ∧
        refresh_tokens (snd (AuthService.authenticate env email_ password d1 d2 d3 w))
        = refresh_tokens w).
Proof.
  destruct (AuthService.authenticate env email_ password d1 d2 d3 w)
    as [r w'] eqn:Hrun.
  simpl. revert Hrun.
  unfold AuthService.authenticate, login_hasher_call.
  unfold mbind at 1, M_bind at 1. rewrite get_by_email_run.
  destruct (found_user email_ w) as [user|] eqn:Hfound; simpl.
  - unfold mbind at 1, M_bind at 1, verify_password_with_timing_safety.
    rewrite verify_password_run.
    destruct (ph_verify_and_update _ _ _ _) as [[[] upgraded]|e0];
      try (intros [= <- <-]; by split).
    destruct (is_active user); simpl; [|intros [= <- <-]; by split].
    destruct (AuthService.truthy upgraded); run_M;
      intros [= <- <-]; by split.
  - unfold mbind at 1, M_bind at 1.
    destruct (absent_hash_branch_outcome (salt env) password w)
      as (r0 & -> & [->|[e0 ->]]); intros [= <- <-]; by split.
Qed.

End login_cost_properties.

(** ** From login to refresh to replay *)

(** A lookup by email returns a row of the table, stored under its id. *)
Lemma found_user_lookup email_ w user :
  users_wf (users w) →
  found_user email_ w = Some user →
  users w !! id user = Some user ∧ email user = email_.
Proof.
  intros [Hkeys _]. unfold found_user.
  destruct (head _) as [[k u]|] eqn:Hhead; [|done].
  intros [= <-].
  apply head_Some_elem_of, list_elem_of_filter in Hhead as [Hemail Hin].
  apply elem_of_map_to_list in Hin. simpl in *.
  by rewrite (Hkeys k u Hin).
Qed.

(** The first row with a hash, in a table whose earlier rows have other
    hashes. *)
Lemma list_find_hash_fresh h (l l' : list RefreshToken) t :
  (∀ x, x ∈ l → token_hash x ≠ h) →
  token_hash t = h →
  snd <$> list_find (λ x, token_hash x = h) (l ++ t :: l') = Some t.
Proof.
  intros Hfresh Ht. induction l as [|a l IH]; simpl.
  - by rewrite decide_True.
  - rewrite decide_False by (apply Hfresh; left).
    destruct (list_find _ (l ++ t :: l')) as [[i x]|] eqn:Hfind; simpl in *.
    + apply IH. intros x' Hx'. apply Hfresh. by right.
    + exfalso. assert (Some t = None) as [=].
      rewrite <- IH; [done|]. intros x' Hx'. apply Hfresh. by right.
Qed.

Section login_chain_properties.
Context `{Externals}.

Lemma authenticate_success_run env email_ password d1 d2 d3 w user upgraded :
  found_user email_ w = Some user →
  ph_verify_and_update password_hasher (salt env) password (hashed_password user)
  = Ok (true, upgraded) →
  is_active user = true →
  AuthService.authenticate env email_ password d1 d2 d3 w
  = (Ok (create_versioned_access_token (now env) (id user)
           (token_version (after_rehash user upgraded)),
         token_urlsafe env,
         after_rehash user upgraded),
     after_login env password user upgraded d1 d2 d3 w).
Proof.
  intros Hsome Hverify Hactive. unfold AuthService.authenticate.
  unfold mbind at 1, M_bind at 1. rewrite get_by_email_run, Hsome. simpl.
  unfold mbind at 1, M_bind at 1, verify_password_with_timing_safety.
  rewrite verify_password_run, Hverify, Hactive. simpl.
  unfold after_rehash, after_login, login_token.
  destruct (AuthService.truthy upgraded) eqn:Htruthy; run_M;
    unfold after_rehash; rewrite ?Htruthy; reflexivity.
Qed.

Lemma authenticate_success_inv env email_ password d1 d2 d3 w r w' :
  AuthService.authenticate env email_ password d1 d2 d3 w = (Ok r, w') →
  ∃ user upgraded,
    found_user email_ w = Some user ∧
    ph_verify_and_update password_hasher (salt env) password (hashed_password user)
    = Ok (true, upgraded) ∧
    is_active user = true.
Proof.
  unfold AuthService.authenticate.
  unfold mbind at 1, M_bind at 1. rewrite get_by_email_run.
  destruct (found_user email_ w) as [user|] eqn:Hfound; simpl.
  - unfold mbind at 1, M_bind at 1, verify_password_with_timing_safety.
    rewrite verify_password_run.
    destruct (ph_verify_and_update _ _ _ _) as [[[] upgraded]|e0] eqn:Hverify;
      try done.
    destruct (is_active user) eqn:Hactive; simpl; [|done].
    intros _. by exists user, upgraded.
  - unfold mbind at 1, M_bind at 1.
    destruct (absent_hash_branch_outcome (salt env) password w)
      as (r0 & -> & [->|[e0 ->]]); done.
Qed.

(** The service calls behind the chain: login, refresh, refresh again. *)
Lemma login_refresh_replay_run
  env env2 env3 email_ password d1 d2 d3 e1 e2 e3 f1 f2 f3 w access raw user w1 :
  users_wf (users w) →
  (∀ x, x ∈ refresh_tokens w → token_hash x ≠ hash_token (token_urlsafe env)) →
  AuthService.authenticate env email_ password d1 d2 d3 w
  = (Ok (access, raw, user), w1) →
  now env2 < now env + 86400 * REFRESH_TOKEN_EXPIRE_DAYS settings →
  ∃ w2 w3,
    AuthService.refresh_tokens env2 raw e1 e2 e3 w1
    = (Ok (create_versioned_access_token (now env2) (id user) (token_version user)),
       w2) ∧
    length (refresh_tokens w2) = S (length (refresh_tokens w1)) ∧
    AuthService.refresh_tokens env3 raw f1 f2 f3 w2
    = (Raise (App TokenRevokedError), w3) ∧
    length (refresh_tokens w3) = length (refresh_tokens w2) ∧
    (∀ t, t ∈ refresh_tokens w3 → family_id t = uuid7_family env →
          is_revoked t = true).
Proof.
  intros Hwf Hfresh Hlogin Hnow2.
  destruct (authenticate_success_inv _ _ _ _ _ _ _ _ _ Hlogin)
    as (user0 & upgraded & Hfound & Hverify & Hactive).
  rewrite (authenticate_success_run _ _ _ d1 d2 d3 _ _ _ Hfound Hverify Hactive)
    in Hlogin.
  injection Hlogin as _ <- <- <-.
  destruct (found_user_lookup _ _ _ Hwf Hfound) as [Hrow _].
  set (t0 := login_token env user0 d1 d2 d3).
  set (w1 := after_login env password user0 upgraded d1 d2 d3 w).
  assert (Hget1 : RefreshTokenRepository.get_by_hash
                    (hash_token (token_urlsafe env)) w1 = (Ok (Some t0), w1)).
  { rewrite get_by_hash_run. f_equal. f_equal. simpl.
    by apply list_find_hash_fresh. }
  assert (Hlive : is_live (now env2) t0 = true).
  { unfold is_live, is_expired. simpl.
    rewrite bool_decide_eq_false_2; [done|lia]. }
  assert (Huser1 : users w1 !! user_id t0 = Some (after_rehash user0 upgraded)).
  { simpl. unfold after_rehash.
    destruct (AuthService.truthy upgraded); [by rewrite lookup_insert_eq|done]. }
  assert (Hactive1 : is_active (after_rehash user0 upgraded) = true).
  { unfold after_rehash. by destruct (AuthService.truthy upgraded). }
  pose proof (refresh_tokens_succeeds env2 _ e1 e2 e3 _ _ _ Hget1 Hlive Huser1
                Hactive1) as Hrefresh.
  set (w2 := set_refresh_tokens
               (rotated env2 t0 (after_rehash user0 upgraded) e1 e2 e3) w1)
    in Hrefresh.
  assert (Hget2 : RefreshTokenRepository.get_by_hash
                    (hash_token (token_urlsafe env)) w2
                  = (Ok (Some (RefreshToken_revoke t0)), w2)).
  { rewrite get_by_hash_run. f_equal. f_equal. simpl. unfold rotated. simpl.
    rewrite fmap_app, <- app_assoc. simpl. rewrite decide_True by done.
    apply list_find_hash_fresh; [|done].
    intros x Hx. apply list_elem_of_fmap in Hx as (x0 & -> & Hx0).
    destruct (decide _); simpl; by apply Hfresh. }
  pose proof (refresh_tokens_replay_run env3 _ f1 f2 f3 _ _ Hget2 eq_refl)
    as Hreplay.
  eexists w2, _. split; [|split; [|split; [exact Hreplay|split]]].
  - exact Hrefresh.
  - simpl. unfold rotated. rewrite length_app, length_fmap. simpl. lia.
  - simpl. by rewrite length_fmap.
  - simpl. intros t Ht Hfam.
    apply list_elem_of_fmap in Ht as (x & -> & _).
    destruct (decide _) as [|Hne]; [done|].
    exfalso. apply Hne. exact Hfam.
Qed.

(** The login route returns what the service's [authenticate] returned,
    the user as the view [model_validate] made of it, when the limiter let
    the request through. *)
Lemma login_route_ok_inv `{Schemas}
  env over_limit ip email_ password w access view cookie w1 :
  AuthRoutes.login env over_limit ip email_ password w
  = (Ok (access, view, SetRefreshCookie cookie), w1) →
  over_limit = false ∧
  ∃ user,
    AuthService.authenticate env email_ password None None ip w
    = (Ok (access, cookie, user), w1) ∧
    UserResponse_model_validate user = Ok view.
Proof.
  unfold AuthRoutes.login. destruct over_limit; [done|].
  unfold AuthService_login, of_result, mbind, M_bind.
  destruct (AuthService.authenticate env email_ password None None ip w)
    as [[[[a r] u]|e] w']; [|done].
  destruct (UserResponse_model_validate u) as [v|e] eqn:Hview; [|done].
  intros [= <- <- <- <-]. split; [done|]. by exists u.
Qed.

(** The user a successful [authenticate] returns is the row stored under
    the user's id afterwards. *)
Lemma authenticate_returns_stored env email_ password d1 d2 d3 w access raw user w1 :
  users_wf (users w) →
  AuthService.authenticate env email_ password d1 d2 d3 w
  = (Ok (access, raw, user), w1) →
  users w1 !! id user = Some user ∧
  access = create_versioned_access_token (now env) (id user) (token_version user) ∧
  raw = token_urlsafe env.
Proof.
  intros Hwf Hlogin.
  destruct (authenticate_success_inv _ _ _ _ _ _ _ _ _ Hlogin)
    as (user0 & upgraded & Hfound & Hverify & Hactive).
  rewrite (authenticate_success_run _ _ _ d1 d2 d3 _ _ _ Hfound Hverify Hactive)
    in Hlogin.
  injection Hlogin as <- <- <- <-.
  destruct (found_user_lookup _ _ _ Hwf Hfound) as [Hrow _].
  split; [|split; [|done]].
  - simpl. unfold after_rehash.
    destruct (AuthService.truthy upgraded); [by rewrite lookup_insert_eq|done].
  - unfold after_rehash. by destruct (AuthService.truthy upgraded).
Qed.

(** X3. The refresh cookie of a login refreshes once. After a login through
    the route, whose raw refresh token is not empty and new to the table,
    the refresh route accepts the cookie the login set, before its expiry,
    and returns an access token and nothing else: the successor's raw value
    reaches no cookie. The token is the one requested for the user the
    login's view was made of, who is stored. Presenting the same cookie once
    more is a replay: the route fails with [TokenRevokedError], and
    afterwards every row of the login's family, the successor included, is
    revoked. *)
Theorem login_cookie_refreshes_once `{Schemas}
  env env2 env3 over_limit ip ip2 ip3 email_ password w access view cookie w1 :
  users_wf (users w) →
  token_urlsafe env ≠ "" →
  (∀ x, x ∈ refresh_tokens w → token_hash x ≠ hash_token (token_urlsafe env)) →
  AuthRoutes.login env over_limit ip email_ password w
  = (Ok (access, view, SetRefreshCookie cookie), w1) →
  now env2 < now env + 86400 * REFRESH_TOKEN_EXPIRE_DAYS settings →
  ∃ user w2 w3,
    UserResponse_model_validate user = Ok view ∧
    users w1 !! id user = Some user ∧
    AuthRoutes.refresh_token env2 ip2 (Some cookie) w1
    = (Ok (create_versioned_access_token (now env2) (id user) (token_version user)),
       w2) ∧
    length (refresh_tokens w2) = S (length (refresh_tokens w1)) ∧
    AuthRoutes.refresh_token env3 ip3 (Some cookie) w2
    = (Raise (App TokenRevokedError), w3) ∧
    length (refresh_tokens w3) = length (refresh_tokens w2) ∧
    (∀ t, t ∈ refresh_tokens w3 → family_id t = uuid7_family env →
          is_revoked t = true).
Proof.
  intros Hwf Hraw Hfresh Hroute Hnow2.
  destruct (login_route_ok_inv _ _ _ _ _ _ _ _ _ _ Hroute)
    as (_ & user & Hlogin & Hview).
  destruct (authenticate_returns_stored _ _ _ _ _ _ _ _ _ _ _ Hwf Hlogin)
    as (Hstored & _ & Hcookie).
  destruct (login_refresh_replay_run env env2 env3 _ _ _ _ _ None None ip2
              None None ip3 _ _ _ _ _ Hwf Hfresh Hlogin Hnow2)
    as (w2 & w3 & Hrefresh & Hlen2 & Hreplay & Hlen3 & Hfam).
  exists user, w2, w3. unfold AuthRoutes.refresh_token, cookie_missing.
  rewrite bool_decide_eq_false_2 by (by rewrite Hcookie).
  done.
Qed.

End login_chain_properties.

(** ** The family invariant along every run of the service *)

(** A filter by a stronger condition is no longer. *)
Lemma length_filter_impl {A} (P Q : A → Prop)
  `{∀ x, Decision (P x)} `{∀ x, Decision (Q x)} (l : list A) :
  (∀ x, P x → Q x) →
  (length (filter P l) ≤ length (filter Q l))%nat.
Proof.
  intros HPQ. induction l as [|x l IH]; [done|].
  rewrite !filter_cons.
  destruct (decide (P x)) as [HP|HP].
  - rewrite decide_True by auto. simpl. lia.
  - destruct (decide (Q x)); simpl; lia.
Qed.

(** Liveness only decays with time. *)
Lemma is_live_mono t t' x : t ≤ t' → is_live t' x = true → is_live t x = true.
Proof.
  unfold is_live, is_expired. intros Hle.
  destruct (is_revoked x); simpl; [done|].
  rewrite !negb_true_iff, !bool_decide_eq_false. lia.
Qed.

Lemma family_invariant_later t t' l :
  t ≤ t' → family_invariant t l → family_invariant t' l.
Proof.
  intros Hle Hinv f. etrans; [|apply (Hinv f)].
  apply length_filter_impl. intros x [Hlive Hfam].
  split; [by eapply is_live_mono|done].
Qed.

Lemma family_invariant_nil t : family_invariant t [].
Proof. intros f. simpl. lia. Qed.

(** Revoking rows, whichever, keeps the invariant. *)
Lemma family_invariant_revoke t (P : RefreshToken → Prop) `{∀ x, Decision (P x)} l :
  family_invariant t l →
  family_invariant t ((λ x, if decide (P x) then RefreshToken_revoke x else x) <$> l).
Proof.
  intros Hinv f. etrans; [apply family_live_revoke_le|apply Hinv].
Qed.

(** A row of a family no row carries yet keeps the invariant. *)
Lemma family_invariant_new_family t l x :
  family_invariant t l →
  (∀ y, y ∈ l → family_id y ≠ family_id x) →
  family_invariant t (l ++ [x]).
Proof.
  intros Hinv Hfresh f. unfold family_live. rewrite list.filter_app, length_app.
  destruct (decide (f = family_id x)) as [->|Hne].
  - rewrite (filter_none _ l); [|intros y Hy [_ Hfam]; by apply (Hfresh y)].
    rewrite filter_cons, filter_nil. destruct (decide _); simpl; lia.
  - rewrite (filter_cons_False _ x) by (intros [_ ?]; by apply Hne).
    rewrite filter_nil. simpl. rewrite Nat.add_0_r. apply Hinv.
Qed.

Section invariant_properties.
Context `{Externals}.

(** A rotation keeps the invariant, whatever the lifetime of the
    successor. *)
Lemma family_invariant_rotated env stored user d1 d2 d3 l :
  family_invariant (now env) l →
  stored ∈ l →
  is_live (now env) stored = true →
  family_invariant (now env) (rotated env stored user d1 d2 d3 l).
Proof.
  intros Hinv Hin Hlive f. unfold rotated, family_live.
  rewrite list.filter_app, length_app.
  destruct (decide (f = family_id stored)) as [->|Hne].
  - fold (family_live (now env) (family_id stored)
            ((λ t, if decide (rt_id t = rt_id stored)
                   then RefreshToken_revoke t else t) <$> l)).
    rewrite (family_live_after_revoke _ _ _ (Hinv _) Hin Hlive).
    rewrite filter_cons, filter_nil. destruct (decide _); simpl; lia.
  - rewrite (filter_cons_False _ (successor env stored user d1 d2 d3))
      by (intros [_ ?]; by apply Hne).
    rewrite filter_nil. simpl. rewrite Nat.add_0_r.
    etrans; [apply (family_live_revoke_le _ f (λ t, rt_id t = rt_id stored))|].
    apply Hinv.
Qed.

(** The token table after a refresh, whatever its outcome. *)
Lemma refresh_tokens_table env refresh_token d1 d2 d3 w :
  refresh_tokens (snd (AuthService.refresh_tokens env refresh_token d1 d2 d3 w))
  = refresh_tokens w ∨
  (∃ stored,
     refresh_tokens (snd (AuthService.refresh_tokens env refresh_token d1 d2 d3 w))
     = (λ t, if decide (family_id t = family_id stored)
             then RefreshToken_revoke t else t) <$> refresh_tokens w) ∨
  (∃ stored user,
     stored ∈ refresh_tokens w ∧ is_live (now env) stored = true ∧
     refresh_tokens (snd (AuthService.refresh_tokens env refresh_token d1 d2 d3 w))
     = rotated env stored user d1 d2 d3 (refresh_tokens w)).
Proof.
  destruct (AuthService.refresh_tokens env refresh_token d1 d2 d3 w)
    as [[access|e] w'] eqn:Hrun; simpl.
  - destruct (refresh_tokens_success_inv _ _ _ _ _ _ _ _ Hrun)
      as (stored & user & Hget & Hlive & Huser & Hactive).
    rewrite (refresh_tokens_succeeds _ _ d1 d2 d3 _ _ _ Hget Hlive Huser Hactive)
      in Hrun.
    injection Hrun as _ <-.
    pose proof (get_by_hash_Some _ _ _ _ Hget) as (_ & Hin & _).
    right. right. by exists stored, user.
  - revert Hrun. unfold AuthService.refresh_tokens.
    unfold mbind at 1, M_bind at 1. rewrite get_by_hash_run.
    destruct (snd <$> list_find _ _) as [stored|] eqn:Hfind;
      [|run_M; intros [= _ <-]; by left].
    destruct (is_revoked stored) eqn:Hrev.
    { run_M. intros [= _ <-]. right. left. by exists stored. }
    destruct (is_expired (now env) stored) eqn:Hexp;
      [run_M; intros [= _ <-]; by left|].
    unfold UserRepository.get_by_id. run_M.
    destruct (users w !! user_id stored) as [user|];
      [|intros [= _ <-]; by left].
    destruct (is_active user); simpl; [done|intros [= _ <-]; by left].
Qed.

(** The token table after a login, whatever its outcome. *)
Lemma authenticate_table env email_ password d1 d2 d3 w :
  refresh_tokens (snd (AuthService.authenticate env email_ password d1 d2 d3 w))
  = refresh_tokens w ∨
  ∃ user,
    refresh_tokens (snd (AuthService.authenticate env email_ password d1 d2 d3 w))
    = refresh_tokens w ++ [login_token env user d1 d2 d3].
Proof.
  destruct (AuthService.authenticate env email_ password d1 d2 d3 w)
    as [[r|e] w'] eqn:Hrun; simpl.
  - destruct (authenticate_success_inv _ _ _ _ _ _ _ _ _ Hrun)
      as (user & upgraded & Hfound & Hverify & Hactive).
    rewrite (authenticate_success_run _ _ _ d1 d2 d3 _ _ _ Hfound Hverify Hactive)
      in Hrun.
    injection Hrun as _ <-. right. by exists user.
  - left. revert Hrun. unfold AuthService.authenticate.
    unfold mbind at 1, M_bind at 1. rewrite get_by_email_run.
    destruct (found_user email_ w) as [user|]; simpl.
    + unfold mbind at 1, M_bind at 1, verify_password_with_timing_safety.
      rewrite verify_password_run.
      destruct (ph_verify_and_update _ _ _ _) as [[[] upgraded]|e0];
        try (by intros [= _ <-]).
      destruct (is_active user); simpl; [|by intros [= _ <-]].
      destruct (AuthService.truthy upgraded); run_M; done.
    + unfold mbind at 1, M_bind at 1.
      destruct (absent_hash_branch_outcome (salt env) password w)
        as (r0 & -> & [->|[e0 ->]]); by intros [= _ <-].
Qed.

(** A password change leaves the token table alone. *)
Lemma change_password_table env salt' user current_password new_password w :
  refresh_tokens
    (snd (UserService.change_password env salt' user current_password
            new_password w))
  = refresh_tokens w.
Proof.
  unfold UserService.change_password.
  unfold mbind at 1, M_bind at 1. rewrite verify_password_run.
  by destruct (ph_verify_and_update _ _ _ _) as [[[] upgraded]|e0].
Qed.

(** One request keeps the invariant, given a fresh family id for a login. *)
Lemma serve_family_invariant env r w :
  family_invariant (now env) (refresh_tokens w) →
  (∀ x, x ∈ refresh_tokens w → family_id x ≠ uuid7_family env) →
  family_invariant (now env) (refresh_tokens (serve env r w)).
Proof.
  intros Hinv Hfresh. destruct r as [e p d1 d2 d3|t d1 d2 d3|t|u|s u c n];
    unfold serve.
  - destruct (authenticate_table env e p d1 d2 d3 w) as [->|[user ->]];
      [done|].
    by apply family_invariant_new_family.
  - destruct (refresh_tokens_table env t d1 d2 d3 w)
      as [->|[[stored ->]|(stored & user & Hin & Hlive & ->)]]; [done| |].
    + by apply (family_invariant_revoke _ (λ x, family_id x = family_id stored)).
    + by apply family_invariant_rotated.
  - rewrite logout_run.
    destruct (snd <$> list_find _ _) as [stored|]; [|done].
    destruct (is_revoked stored); [done|]. simpl.
    by apply (family_invariant_revoke _ (λ x, rt_id x = rt_id stored)).
  - rewrite logout_all_run. simpl.
    erewrite list_fmap_ext;
      [apply (family_invariant_revoke _
                (λ x, RefreshTokenRepository.live_of_user (now env) (id u) x = true)
                _ Hinv)|].
    intros i x _. simpl.
    by destruct (RefreshTokenRepository.live_of_user (now env) (id u) x).
  - by rewrite change_password_table.
Qed.

(** X4. In every state the service reaches from an empty token table, by
    logins, refreshes, logouts, logouts from all devices and password
    changes in any order and with any arguments, at most one token per
    family is live. *)
Theorem reachable_family_invariant t w :
  reachable t w → family_invariant t (refresh_tokens w).
Proof.
  induction 1 as [t w Hempty|t w env r Hreach IH Hle Hfresh].
  - rewrite Hempty. apply family_invariant_nil.
  - apply serve_family_invariant; [|done].
    by apply (family_invariant_later t).
Qed.

End invariant_properties.

(** ** The users table *)

(** The row with an email is the one a lookup by that email returns. *)
Lemma found_user_of_row email_ w k user :
  users_wf (users w) →
  users w !! k = Some user →
  email user = email_ →
  found_user email_ w = Some user.
Proof.
  intros [_ Hemails] Hrow Hemail. unfold found_user.
  destruct (head _) as [[k' u']|] eqn:Hhead; simpl.
  - apply head_Some_elem_of, list_elem_of_filter in Hhead as [Hemail' Hin].
    apply elem_of_map_to_list in Hin. simpl in *.
    assert (k' = k) as -> by (eapply Hemails; [done..|congruence]).
    congruence.
  - apply head_None in Hhead.
    assert (Hin : (k, user) ∈ filter (λ r : UUID * User, email r.2 = email_)
                                (map_to_list (users w))).
    { apply list_elem_of_filter. split; [done|]. by apply elem_of_map_to_list. }
    rewrite Hhead in Hin. by apply not_elem_of_nil in Hin.
Qed.

(** No lookup result: no row has the email. *)
Lemma found_user_None email_ w :
  found_user email_ w = None →
  ∀ k user, users w !! k = Some user → email user ≠ email_.
Proof.
  unfold found_user. intros Hnone k user Hrow Hemail.
  destruct (head _) as [x|] eqn:Hhead; [done|].
  apply head_None in Hhead.
  assert (Hin : (k, user) ∈ filter (λ r : UUID * User, email r.2 = email_)
                              (map_to_list (users w))).
  { apply list_elem_of_filter. split; [done|]. by apply elem_of_map_to_list. }
  rewrite Hhead in Hin. by apply not_elem_of_nil in Hin.
Qed.

(** Replacing a row by one of the same id and email keeps the table well
    formed. *)
Lemma users_wf_update m user user' :
  users_wf m →
  m !! id user = Some user →
  id user' = id user →
  email user' = email user →
  users_wf (<[id user := user']> m).
Proof.
  intros [Hkeys Hemails] Hrow Hid Hemail. split.
  - intros k u Hk. apply lookup_insert_Some in Hk as [[<- <-]|[Hne Hk]]; auto.
  - intros k1 k2 u1 u2 H1 H2 Heq.
    apply lookup_insert_Some in H1 as [[<- <-]|[Hne1 H1]];
      apply lookup_insert_Some in H2 as [[<- <-]|[Hne2 H2]]; try done.
    + symmetry. eapply Hemails; [exact H2|exact Hrow|congruence].
    + eapply Hemails; [exact H1|exact Hrow|congruence].
    + by eapply Hemails.
Qed.

(** A new row with a free id and a free email keeps the table well
    formed. *)
Lemma users_wf_insert_new m user :
  users_wf m →
  m !! id user = None →
  (∀ k u, m !! k = Some u → email u ≠ email user) →
  users_wf (<[id user := user]> m).
Proof.
  intros [Hkeys Hemails] Hfree Hemail. split.
  - intros k u Hk. apply lookup_insert_Some in Hk as [[<- <-]|[Hne Hk]]; auto.
  - intros k1 k2 u1 u2 H1 H2 Heq.
    apply lookup_insert_Some in H1 as [[<- <-]|[Hne1 H1]];
      apply lookup_insert_Some in H2 as [[<- <-]|[Hne2 H2]]; try done.
    + by destruct (Hemail _ _ H2).
    + by destruct (Hemail _ _ H1).
    + by eapply Hemails.
Qed.

Section users_properties.
Context `{Externals}.

(** The users table after a request: as before, or with one stored row
    replaced by a row of the same identity. *)
Lemma serve_users env r w :
  users_wf (users w) →
  request_user_stored r w →
  users (serve env r w) = users w ∨
  ∃ u u', users w !! id u = Some u ∧ same_identity u u' ∧
          users (serve env r w) = <[id u := u']> (users w).
Proof.
  intros Hwf Hstored.
  destruct r as [e p d1 d2 d3|t d1 d2 d3|t|u|s u c n]; unfold serve.
  - destruct (AuthService.authenticate env e p d1 d2 d3 w)
      as [[r|e0] w'] eqn:Hrun; simpl.
    + destruct (authenticate_success_inv _ _ _ _ _ _ _ _ _ Hrun)
        as (user & upgraded & Hfound & Hverify & Hactive).
      rewrite (authenticate_success_run _ _ _ d1 d2 d3 _ _ _ Hfound Hverify
                 Hactive) in Hrun.
      injection Hrun as _ <-. simpl.
      destruct (AuthService.truthy upgraded) eqn:Htruthy; [|by left].
      right. exists user, (after_rehash user upgraded).
      destruct (found_user_lookup _ _ _ Hwf Hfound) as [Hrow _].
      split; [done|]. split; [|done].
      unfold after_rehash, same_identity. rewrite Htruthy. simpl.
      repeat split; lia.
    + left. revert Hrun. unfold AuthService.authenticate.
      unfold mbind at 1, M_bind at 1. rewrite get_by_email_run.
      destruct (found_user e w) as [user|]; simpl.
      * unfold mbind at 1, M_bind at 1, verify_password_with_timing_safety.
        rewrite verify_password_run.
        destruct (ph_verify_and_update _ _ _ _) as [[[] upgraded]|e1];
          try (by intros [= _ <-]).
        destruct (is_active user); simpl; [|by intros [= _ <-]].
        destruct (AuthService.truthy upgraded); run_M; done.
      * unfold mbind at 1, M_bind at 1.
        destruct (absent_hash_branch_outcome (salt env) p w)
          as (r0 & -> & [->|[e1 ->]]); by intros [= _ <-].
  - left. unfold AuthService.refresh_tokens.
    unfold mbind at 1, M_bind at 1. rewrite get_by_hash_run.
    destruct (snd <$> list_find _ _) as [stored|]; [|by run_M].
    destruct (is_revoked stored); [by run_M|].
    destruct (is_expired (now env) stored); [by run_M|].
    unfold UserRepository.get_by_id. run_M.
    destruct (users w !! user_id stored) as [user|]; [|done].
    by destruct (is_active user).
  - left. rewrite logout_run.
    destruct (snd <$> list_find _ _) as [stored|]; [|done].
    by destruct (is_revoked stored).
  - right. exists u, (User_increment_token_version u). simpl in Hstored.
    split; [done|]. split; [|done].
    unfold same_identity. simpl. repeat split; lia.
  - simpl in Hstored.
    destruct (UserService.change_password env s u c n w) as [r0 w'] eqn:Hrun.
    simpl. revert Hrun. unfold UserService.change_password.
    unfold mbind at 1, M_bind at 1. rewrite verify_password_run.
    destruct (ph_verify_and_update _ _ _ _) as [[[] upgraded]|e0];
      run_M; intros [= _ <-]; try (by left).
    right.
    exists u, (User_increment_token_version
                 (User_set_hashed_password u (ph_hash password_hasher s n))).
    split; [done|]. split; [|done].
    unfold same_identity. simpl. repeat split; lia.
Qed.

(** X5. The service neither adds nor removes a user, and it changes no id, no
    email and no active flag; a token version never goes down. This holds
    for every request and every outcome, for a well-formed table and a
    request made for a stored user. *)
Theorem serve_keeps_identities env r w k :
  users_wf (users w) →
  request_user_stored r w →
  match users w !! k, users (serve env r w) !! k with
  | Some u, Some u' => same_identity u u'
  | None, None => True
  | _, _ => False
  end.
Proof.
  intros Hwf Hstored.
  assert (Hrefl : ∀ u, same_identity u u) by (intro; repeat split; lia).
  destruct (serve_users env r w Hwf Hstored) as [->|(u & u' & Hrow & Hsame & ->)].
  - destruct (users w !! k); auto.
  - destruct (decide (id u = k)) as [<-|Hne].
    + by rewrite Hrow, lookup_insert_eq.
    + rewrite lookup_insert_ne by done. destruct (users w !! k); auto.
Qed.

(** X6. Every request keeps the users table keyed by id and free of a repeated
    email. *)
Theorem serve_keeps_users_wf env r w :
  users_wf (users w) →
  request_user_stored r w →
  users_wf (users (serve env r w)).
Proof.
  intros Hwf Hstored.
  destruct (serve_users env r w Hwf Hstored) as [->|(u & u' & Hrow & Hsame & ->)];
    [done|].
  destruct Hsame as (Hid & Hemail & _). by apply users_wf_update.
Qed.

End users_properties.

(** ** Registration and login of the minimal example *)

Lemma email_exists_run email_ w :
  Minimal.UserRepository.email_exists email_ w
  = (Ok (bool_decide (is_Some (found_user email_ w))), w).
Proof.
  unfold Minimal.UserRepository.email_exists, found_user, gets.
  do 2 f_equal. apply bool_decide_ext. by rewrite fmap_is_Some.
Qed.

Lemma minimal_get_by_email_run email_ w :
  Minimal.UserRepository.get_by_email email_ w = (Ok (found_user email_ w), w).
Proof. reflexivity. Qed.

Section registration_properties.
Context `{Externals}.

(** The run of a registration with a free email and a free id. *)
Lemma create_user_run env token_version_ d w :
  found_user (Minimal.uc_email d) w = None →
  users w !! uuid7_row env = None →
  Minimal.UserService.create_user env token_version_ d w
  = (Ok (registered env token_version_ d),
     set_users (<[uuid7_row env := registered env token_version_ d]>)
       (log_call (CallHash (Minimal.uc_password d)) w)).
Proof.
  intros Hnone Hfree. unfold Minimal.UserService.create_user.
  unfold mbind at 1, M_bind at 1. rewrite email_exists_run, Hnone.
  rewrite bool_decide_eq_false_2 by (by intros [? ?]).
  unfold hash_password, Minimal.UserRepository.create_user.
  unfold mbind at 1, M_bind at 1, to_thread.
  unfold mbind at 1, M_bind at 1, gets. simpl.
  rewrite Hfree. rewrite bool_decide_eq_false_2 by (by intros [? ?]).
  unfold mbind at 1, M_bind at 1. rewrite email_exists_run. simpl.
  unfold found_user in Hnone |- *. simpl. rewrite Hnone.
  rewrite bool_decide_eq_false_2 by (by intros [? ?]).
  reflexivity.
Qed.

(** X7. Registering an email a stored user has fails with
    [EmailAlreadyExists], which says so with status 409, before anything is
    hashed or stored: the state is untouched. *)
Theorem register_taken_email env token_version_ d w k user :
  users w !! k = Some user →
  email user = Minimal.uc_email d →
  Minimal.UserService.create_user env token_version_ d w
  = (Raise (App (EmailAlreadyExists (Minimal.uc_email d))), w) ∧
  status_code (EmailAlreadyExists (Minimal.uc_email d)) = 409 ∧
  message (EmailAlreadyExists (Minimal.uc_email d))
  = "Email '" +:+ Minimal.uc_email d +:+ "' is already registered".
Proof.
  intros Hrow Hemail. split; [|done].
  unfold Minimal.UserService.create_user.
  unfold mbind at 1, M_bind at 1. rewrite email_exists_run.
  rewrite bool_decide_eq_true_2; [done|].
  destruct (found_user (Minimal.uc_email d) w) eqn:Hfound; [done|].
  by destruct (found_user_None _ _ Hfound _ _ Hrow).
Qed.

(** The users table after a registration, whatever its outcome. *)
Lemma create_user_users env token_version_ d w :
  users (snd (Minimal.UserService.create_user env token_version_ d w)) = users w ∨
  (found_user (Minimal.uc_email d) w = None ∧
   users w !! uuid7_row env = None ∧
   users (snd (Minimal.UserService.create_user env token_version_ d w))
   = <[uuid7_row env := registered env token_version_ d]> (users w)).
Proof.
  destruct (found_user (Minimal.uc_email d) w) as [u|] eqn:Hfound.
  { left. unfold Minimal.UserService.create_user.
    unfold mbind at 1, M_bind at 1. rewrite email_exists_run, Hfound.
    by rewrite bool_decide_eq_true_2. }
  destruct (users w !! uuid7_row env) as [u|] eqn:Hfree.
  - left. unfold Minimal.UserService.create_user.
    unfold mbind at 1, M_bind at 1. rewrite email_exists_run, Hfound.
    rewrite bool_decide_eq_false_2 by (by intros [? ?]).
    unfold hash_password, Minimal.UserRepository.create_user.
    unfold mbind at 1, M_bind at 1, to_thread.
    unfold mbind at 1, M_bind at 1, gets. simpl.
    rewrite Hfree. by rewrite bool_decide_eq_true_2.
  - right. split; [done|]. split; [done|].
    by rewrite (create_user_run _ _ _ _ Hfound Hfree).
Qed.

(** X8. Whatever its outcome, a registration keeps the users table keyed by id
    and free of a repeated email, and leaves every stored row as it was. *)
Theorem register_keeps_users_wf env token_version_ d w :
  users_wf (users w) →
  users_wf (users (snd (Minimal.UserService.create_user env token_version_ d w)))
  ∧ (∀ k user, users w !! k = Some user →
       users (snd (Minimal.UserService.create_user env token_version_ d w)) !! k
       = Some user).
Proof.
  intros Hwf.
  destruct (create_user_users env token_version_ d w)
    as [->|(Hfound & Hfree & ->)]; [done|].
  split.
  - apply (users_wf_insert_new _ (registered env token_version_ d)); [done..|].
    intros k u Hrow. by apply (found_user_None _ _ Hfound k).
  - intros k user Hrow. rewrite lookup_insert_ne; [done|]. congruence.
Qed.

End registration_properties.

Section minimal_login_properties.
Context `{Externals}.

Lemma minimal_authenticate_success_run env email_ password w user upgraded :
  found_user email_ w = Some user →
  ph_verify_and_update password_hasher (salt env) password (hashed_password user)
  = Ok (true, upgraded) →
  is_active user = true →
  Minimal.AuthService.authenticate env email_ password w
  = (Ok (create_access_token (now env) (id user) None,
         minimal_after_rehash user upgraded),
     {| users := if Minimal.AuthService.truthy upgraded
                 then <[id user := minimal_after_rehash user upgraded]> (users w)
                 else users w;
        refresh_tokens := refresh_tokens w;
        hasher_calls := hasher_calls w
                        ++ [CallVerifyAndUpdate password (hashed_password user)] |}).
Proof.
  intros Hsome Hverify Hactive. unfold Minimal.AuthService.authenticate.
  unfold mbind at 1, M_bind at 1. rewrite minimal_get_by_email_run, Hsome. simpl.
  unfold mbind at 1, M_bind at 1, verify_password_with_timing_safety.
  rewrite verify_password_run, Hverify, Hactive. simpl.
  unfold minimal_after_rehash.
  destruct (Minimal.AuthService.truthy upgraded) eqn:Htruthy; run_M;
    rewrite ?Htruthy; reflexivity.
Qed.

Lemma minimal_authenticate_success_inv env email_ password w r w' :
  Minimal.AuthService.authenticate env email_ password w = (Ok r, w') →
  ∃ user upgraded,
    found_user email_ w = Some user ∧
    ph_verify_and_update password_hasher (salt env) password (hashed_password user)
    = Ok (true, upgraded) ∧
    is_active user = true.
Proof.
  unfold Minimal.AuthService.authenticate.
  unfold mbind at 1, M_bind at 1. rewrite minimal_get_by_email_run.
  destruct (found_user email_ w) as [user|] eqn:Hfound; simpl.
  - unfold mbind at 1, M_bind at 1, verify_password_with_timing_safety.
    rewrite verify_password_run.
    destruct (ph_verify_and_update _ _ _ _) as [[[] upgraded]|e0] eqn:Hverify;
      try done.
    destruct (is_active user) eqn:Hactive; simpl; [|done].
    intros _. by exists user, upgraded.
  - unfold mbind at 1, M_bind at 1.
    destruct (absent_hash_branch_outcome (salt env) password w)
      as (r0 & -> & [->|[e0 ->]]); done.
Qed.

(** X9. Register, then log in. After a registration with a free email and a
    free id, a login with the same email and password succeeds, for a
    hasher that accepts its own hashes: it returns the registered user and
    an access token issued for that user's id. *)
Theorem register_then_login env env' token_version_ d w :
  users_wf (users w) →
  found_user (Minimal.uc_email d) w = None →
  users w !! uuid7_row env = None →
  accepts_own_hashes password_hasher →
  ∃ user w2,
    Minimal.AuthService.authenticate env' (Minimal.uc_email d)
      (Minimal.uc_password d)
      (snd (Minimal.UserService.create_user env token_version_ d w))
    = (Ok (create_access_token (now env') (uuid7_row env) None, user), w2) ∧
    id user = uuid7_row env ∧
    email user = Minimal.uc_email d ∧
    is_active user = true ∧
    users w2 !! uuid7_row env = Some user.
Proof.
  intros Hwf Hnone Hfree Hph.
  rewrite (create_user_run _ token_version_ _ _ Hnone Hfree). simpl.
  set (u := registered env token_version_ d).
  set (w1 := set_users _ _).
  assert (Hwf1 : users_wf (users w1)).
  { apply (users_wf_insert_new _ u); [done..|].
    intros k x Hrow. by apply (found_user_None _ _ Hnone k). }
  assert (Hrow1 : users w1 !! uuid7_row env = Some u)
    by apply lookup_insert_eq.
  pose proof (found_user_of_row (Minimal.uc_email d) w1 _ u Hwf1 Hrow1 eq_refl)
    as Hfound1.
  destruct (Hph (salt env) (salt env') (Minimal.uc_password d))
    as [upgraded Hverify].
  rewrite (minimal_authenticate_success_run env' _ _ w1 u upgraded Hfound1
             Hverify eq_refl).
  eexists _, _. split; [reflexivity|]. unfold minimal_after_rehash. simpl.
  destruct (Minimal.AuthService.truthy upgraded); simpl;
    repeat split; try done.
  by rewrite lookup_insert_eq.
Qed.

(** A token issued without extra claims on [sub] and [type] resolves to the
    stored user it names, when the JWT library returns the claims it
    signed and the id prints and parses back. *)
Lemma issued_token_resolves now now' user_id_ extra_claims w user :
  default ∅ extra_claims !! "sub" = None →
  default ∅ extra_claims !! "type" = None →
  uuid_parse (uuid_str user_id_) = Some user_id_ →
  decode_access_token now' (create_access_token now user_id_ extra_claims)
  = inr (access_token_payload now user_id_ extra_claims) →
  users w !! user_id_ = Some user →
  get_current_user now' (create_access_token now user_id_ extra_claims) w
  = (Ok user, w).
Proof.
  intros Hsub Htype Hparse Hdecode Huser.
  eapply get_current_user_accepts; [exact Hdecode| | |exact Hparse|exact Huser].
  - rewrite access_token_payload_union, lookup_union_r by done. reflexivity.
  - rewrite access_token_payload_union, lookup_union_r by done. reflexivity.
Qed.

(** X10. Log in, then call a protected route. The access token a successful
    login of the example returns resolves, through [get_current_user] and
    [get_current_active_user], to the user the login returned, when the
    JWT library returns at that instant the claims it signed and the id
    prints and parses back. *)
Theorem login_token_resolves_to_user env now' email_ password w token user w1 :
  users_wf (users w) →
  Minimal.AuthService.authenticate env email_ password w = (Ok (token, user), w1) →
  uuid_parse (uuid_str (id user)) = Some (id user) →
  decode_access_token now' token
  = inr (access_token_payload (now env) (id user) None) →
  get_current_user now' token w1 = (Ok user, w1) ∧
  CurrentUser now' token w1 = (Ok user, w1).
Proof.
  intros Hwf Hlogin Hparse Hdecode.
  destruct (minimal_authenticate_success_inv _ _ _ _ _ _ Hlogin)
    as (user0 & upgraded & Hfound & Hverify & Hactive).
  rewrite (minimal_authenticate_success_run _ _ _ _ _ _ Hfound Hverify Hactive)
    in Hlogin.
  injection Hlogin as <- <- <-.
  destruct (found_user_lookup _ _ _ Hwf Hfound) as [Hrow _].
  assert (Hid : id (minimal_after_rehash user0 upgraded) = id user0).
  { unfold minimal_after_rehash. by destruct (Minimal.AuthService.truthy _). }
  assert (Hact : is_active (minimal_after_rehash user0 upgraded) = true).
  { unfold minimal_after_rehash. by destruct (Minimal.AuthService.truthy _). }
  rewrite Hid in Hparse, Hdecode.
  set (w1 := {| users := _ |}).
  assert (Hrow1 : users w1 !! id user0 = Some (minimal_after_rehash user0 upgraded)).
  { simpl. unfold minimal_after_rehash.
    destruct (Minimal.AuthService.truthy upgraded);
      [by rewrite lookup_insert_eq|done]. }
  assert (Hget : get_current_user now'
                   (create_access_token (now env) (id user0) None) w1
                 = (Ok (minimal_after_rehash user0 upgraded), w1))
    by (by apply issued_token_resolves).
  split; [exact Hget|].
  unfold CurrentUser, get_current_active_user.
  unfold mbind, M_bind. rewrite Hget, Hact. reflexivity.
Qed.

(** X11. [CurrentUser] reads and never writes, and returns stored active users
    only: a user it returns is the row under the id the token's [sub]
    parses to, its [is_active] set, and the token decoded with [type]
    "access". *)
Theorem current_user_is_stored_and_active now token w :
  snd (CurrentUser now token w) = w ∧
  (∀ user, fst (CurrentUser now token w) = Ok user →
     is_active user = true ∧
     ∃ payload sub user_id_,
       decode_access_token now token = inr payload ∧
       payload !! "type" = Some (VStr "access") ∧
       payload !! "sub" = Some (VStr sub) ∧
       uuid_parse sub = Some user_id_ ∧
       users w !! user_id_ = Some user).
Proof.
  destruct (CurrentUser now token w) as [r w'] eqn:Hrun. simpl.
  revert Hrun. unfold CurrentUser, get_current_active_user, get_current_user.
  unfold mbind at 1, M_bind at 1.
  destruct (decode_access_token now token) as [msg|payload] eqn:Hdecode;
    [run_M; by intros [= <- <-]|].
  unfold TokenType_ACCESS. case_bool_decide as Htype;
    [run_M; by intros [= <- <-]|].
  destruct (payload !! "sub") as [[sub|z]|] eqn:Hsub;
    [|run_M; by intros [= <- <-]..].
  destruct (uuid_parse sub) as [user_id_|] eqn:Hparse;
    [|run_M; by intros [= <- <-]].
  unfold UserRepository.get_by_id. run_M.
  destruct (users w !! user_id_) as [user|] eqn:Huser; [|by intros [= <- <-]].
  destruct (is_active user) eqn:Hactive; simpl; intros [= <- <-]; [|done].
  split; [done|].
  intros ? [= <-]. split; [done|]. by exists payload, sub, user_id_.
Qed.

(** The application exceptions [CurrentUser] raises: a [TokenError],
    [UserNotFound] or [InactiveUser]. *)
Lemma CurrentUser_raises now token w exc w' :
  CurrentUser now token w = (Raise (App exc), w') →
  (exc_class exc = CTokenError ∧ status_code exc = 401) ∨
  (exc_class exc = CUserNotFound ∧ status_code exc = 404) ∨
  exc = InactiveUser.
Proof.
  unfold CurrentUser, get_current_active_user, get_current_user.
  unfold mbind at 1, M_bind at 1.
  destruct (decode_access_token now token) as [msg|payload] eqn:Hdecode;
    [run_M; intros [= <- _]; by left|].
  unfold TokenType_ACCESS. case_bool_decide as Htype;
    [run_M; intros [= <- _]; by left|].
  destruct (payload !! "sub") as [[sub|z]|] eqn:Hsub;
    [|by run_M..].
  destruct (uuid_parse sub) as [user_id_|] eqn:Hparse; [|by run_M].
  unfold UserRepository.get_by_id. run_M.
  destruct (users w !! user_id_) as [user|] eqn:Huser;
    [|intros [= <- _]; right; by left].
  destruct (is_active user) eqn:Hactive; simpl; [done|].
  intros [= <- _]. right. by right.
Qed.

End minimal_login_properties.

(** ** Changing the password *)

Section change_password_properties.
Context `{Externals}.

Lemma change_password_success_run env salt' user current new w upgraded :
  ph_verify_and_update password_hasher (salt env) current (hashed_password user)
  = Ok (true, upgraded) →
  UserService.change_password env salt' user current new w
  = (Ok (),
     {| users := <[id user := with_new_password salt' user new]> (users w);
        refresh_tokens := refresh_tokens w;
        hasher_calls := hasher_calls w
                        ++ [CallVerifyAndUpdate current (hashed_password user)]
                        ++ [CallHash new] |}).
Proof.
  intros Hverify. unfold UserService.change_password.
  unfold mbind at 1, M_bind at 1. rewrite verify_password_run, Hverify.
  run_M. unfold set_users, log_call. simpl. by rewrite <- app_assoc.
Qed.

(** X12. [change_password] with a wrong current password raises
    [InvalidCredentials] and stores nothing: both tables are untouched and
    the new password is never hashed. With the right one, the user's row
    gets the hash of the new password and the next token version, the
    upgraded hash a re-hash may have offered is dropped, and the token table
    is untouched. *)
Theorem change_password_outcomes env salt' user current new w :
  (wrong_password (salt env) current user →
   UserService.change_password env salt' user current new w
   = (Raise (App InvalidCredentials),
      log_call (CallVerifyAndUpdate current (hashed_password user)) w)) ∧
  (∀ upgraded,
     ph_verify_and_update password_hasher (salt env) current (hashed_password user)
     = Ok (true, upgraded) →
     ∃ w',
       UserService.change_password env salt' user current new w = (Ok (), w') ∧
       users w' !! id user
       = Some {| id := id user; email := email user;
                 hashed_password := ph_hash password_hasher salt' new;
                 is_active := is_active user;
                 token_version := token_version user + 1 |} ∧
       (∀ k, k ≠ id user → users w' !! k = users w !! k) ∧
       refresh_tokens w' = refresh_tokens w).
Proof.
  split.
  - intros Hwrong. unfold UserService.change_password.
    unfold mbind at 1, M_bind at 1. rewrite verify_password_run.
    destruct (ph_verify_and_update _ _ _ _) as [[[] upgraded]|e0] eqn:Hv;
      try done.
    by destruct (Hwrong upgraded).
  - intros upgraded Hverify. eexists. split.
    { apply (change_password_success_run _ _ _ _ _ _ _ Hverify). }
    simpl. split; [by rewrite lookup_insert_eq|]. split; [|done].
    intros k Hne. by rewrite lookup_insert_ne.
Qed.

(** X13. Change the password, then log in with the new one: the login succeeds,
    for an active stored user and a hasher that accepts its own hashes, and
    the token it asks for is above the version the user had. *)
Theorem change_password_then_login
  env env' salt' user current new d1 d2 d3 w upgraded :
  users_wf (users w) →
  users w !! id user = Some user →
  is_active user = true →
  ph_verify_and_update password_hasher (salt env) current (hashed_password user)
  = Ok (true, upgraded) →
  accepts_own_hashes password_hasher →
  ∃ access raw user' w2,
    AuthService.authenticate env' (email user) new d1 d2 d3
      (snd (UserService.change_password env salt' user current new w))
    = (Ok (access, raw, user'), w2) ∧
    id user' = id user ∧
    token_version user < token_version user' ∧
    access = create_versioned_access_token (now env') (id user)
               (token_version user').
Proof.
  intros Hwf Hrow Hactive Hverify Hph.
  rewrite (change_password_success_run _ _ _ _ _ _ _ Hverify). simpl.
  set (u1 := with_new_password salt' user new).
  set (w1 := {| users := _ |}).
  assert (Hwf1 : users_wf (users w1)) by (by apply users_wf_update).
  assert (Hrow1 : users w1 !! id user = Some u1) by apply lookup_insert_eq.
  pose proof (found_user_of_row (email user) w1 _ u1 Hwf1 Hrow1 eq_refl)
    as Hfound1.
  destruct (Hph salt' (salt env') new) as [upgraded' Hverify'].
  rewrite (authenticate_success_run env' _ _ d1 d2 d3 w1 u1 upgraded' Hfound1
             Hverify' Hactive).
  eexists _, _, _, _. split; [reflexivity|].
  unfold after_rehash. destruct (AuthService.truthy upgraded'); simpl;
    repeat split; lia.
Qed.

(** X14. A password change ends no refresh session: a refresh token of the user
    that was live before the change still refreshes after it, and the
    access token it yields is requested for the user's new version. *)
Theorem refresh_survives_password_change
  env env' salt' user current new refresh_token d1 d2 d3 w upgraded stored :
  users w !! id user = Some user →
  is_active user = true →
  ph_verify_and_update password_hasher (salt env) current (hashed_password user)
  = Ok (true, upgraded) →
  RefreshTokenRepository.get_by_hash (hash_token refresh_token) w
  = (Ok (Some stored), w) →
  user_id stored = id user →
  is_live (now env') stored = true →
  fst (AuthService.refresh_tokens env' refresh_token d1 d2 d3
         (snd (UserService.change_password env salt' user current new w)))
  = Ok (create_versioned_access_token (now env') (id user)
          (token_version user + 1)).
Proof.
  intros Hrow Hactive Hverify Hget Howner Hlive.
  rewrite (change_password_success_run _ _ _ _ _ _ _ Hverify). simpl.
  set (w1 := {| users := _ |}).
  assert (Hget1 : RefreshTokenRepository.get_by_hash (hash_token refresh_token) w1
                  = (Ok (Some stored), w1)).
  { rewrite get_by_hash_run in Hget |- *. injection Hget as Hfind.
    simpl. by rewrite Hfind. }
  assert (Huser1 : users w1 !! user_id stored
                   = Some (with_new_password salt' user new)).
  { rewrite Howner. apply lookup_insert_eq. }
  by rewrite (refresh_tokens_succeeds env' _ d1 d2 d3 _ _ _ Hget1 Hlive Huser1
                Hactive).
Qed.

End change_password_properties.

(** ** Logout, then refresh *)

Section logout_refresh_properties.
Context `{Externals}.

(** X15. After a logout the presented token refreshes no more: a refresh with
    it is treated as a replay, fails with [TokenRevokedError] and revokes
    what is left of its family. *)
Theorem logout_then_refresh_fails env refresh_token d1 d2 d3 w stored :
  RefreshTokenRepository.get_by_hash (hash_token refresh_token) w
  = (Ok (Some stored), w) →
  fst (AuthService.refresh_tokens env refresh_token d1 d2 d3
         (snd (AuthService.logout refresh_token w)))
  = Raise (App TokenRevokedError) ∧
  (∀ t, t ∈ refresh_tokens
              (snd (AuthService.refresh_tokens env refresh_token d1 d2 d3
                      (snd (AuthService.logout refresh_token w)))) →
        family_id t = family_id stored → is_revoked t = true).
Proof.
  intros Hget. pose proof Hget as Hget0.
  rewrite get_by_hash_run in Hget0. injection Hget0 as Hfind.
  set (w1 := snd (AuthService.logout refresh_token w)).
  assert (Hget1 : RefreshTokenRepository.get_by_hash (hash_token refresh_token) w1
                  = (Ok (Some (RefreshToken_revoke stored)), w1)).
  { unfold w1. rewrite logout_run, Hfind.
    destruct (is_revoked stored) eqn:Hrev; simpl.
    - rewrite get_by_hash_run, Hfind. simpl.
      destruct stored; simpl in *; by subst.
    - rewrite get_by_hash_run. simpl.
      rewrite (get_by_hash_after_revoke (λ t, rt_id t = rt_id stored)), Hfind.
      simpl. by rewrite decide_True. }
  rewrite (refresh_tokens_replay_run env _ d1 d2 d3 _ _ Hget1 eq_refl). simpl.
  split; [done|].
  intros t Ht Hfam. apply list_elem_of_fmap in Ht as (x & -> & _).
  destruct (decide _) as [|Hne]; [done|].
  exfalso. apply Hne. exact Hfam.
Qed.

(** X16. After a logout from all devices no refresh token of the user
    refreshes: at any later instant a refresh with one fails, with
    [TokenRevokedError] when the token was revoked already or live at the
    logout (which revoked it), and with the [TokenError] "Refresh token
    expired" when it had expired unrevoked. *)
Theorem logout_all_then_refresh_fails
  env env' user refresh_token d1 d2 d3 w stored :
  RefreshTokenRepository.get_by_hash (hash_token refresh_token) w
  = (Ok (Some stored), w) →
  user_id stored = id user →
  now env ≤ now env' →
  fst (AuthService.refresh_tokens env' refresh_token d1 d2 d3
         (snd (AuthService.logout_all env user w)))
  = Raise (App (if is_revoked stored || negb (is_expired (now env) stored)
                then TokenRevokedError
                else TokenError "Refresh token expired")).
Proof.
  intros Hget Howner Hle. pose proof Hget as Hget0.
  rewrite get_by_hash_run in Hget0. injection Hget0 as Hfind.
  rewrite logout_all_run. simpl.
  set (w1 := set_refresh_tokens _ _).
  assert (Hfind1 :
    snd <$> list_find (λ t, token_hash t = hash_token refresh_token)
              (refresh_tokens w1)
    = Some (if RefreshTokenRepository.live_of_user (now env) (id user) stored
            then RefreshToken_revoke stored else stored)).
  { simpl. rewrite list_find_fmap.
    erewrite (list_find_ext _ (λ t, token_hash t = hash_token refresh_token)).
    - destruct (list_find _ (refresh_tokens w)) as [[i t]|]; simpl in *;
        [by simplify_eq|done].
    - intros t. simpl.
      by destruct (RefreshTokenRepository.live_of_user (now env) (id user) t). }
  assert (Hlive_eq :
    RefreshTokenRepository.live_of_user (now env) (id user) stored
    = negb (is_revoked stored) && negb (is_expired (now env) stored)).
  { unfold RefreshTokenRepository.live_of_user, is_live.
    rewrite Howner, (bool_decide_eq_true_2 (id user = id user)) by done.
    by rewrite andb_true_r. }
  rewrite Hlive_eq in Hfind1.
  destruct (is_revoked stored) eqn:Hrev; cbn [negb andb orb] in Hfind1 |- *.
  - rewrite (refresh_tokens_replay_run env' _ d1 d2 d3 w1 stored);
      [done|by rewrite get_by_hash_run, Hfind1|done].
  - destruct (is_expired (now env) stored) eqn:Hexp;
      cbn [negb andb orb] in Hfind1 |- *.
    + unfold AuthService.refresh_tokens.
      unfold mbind at 1, M_bind at 1. rewrite get_by_hash_run, Hfind1, Hrev.
      assert (Hexp' : is_expired (now env') stored = true).
      { unfold is_expired in *. apply bool_decide_eq_true in Hexp.
        apply bool_decide_eq_true. lia. }
      by rewrite Hexp'.
    + rewrite (refresh_tokens_replay_run env' _ d1 d2 d3 w1
                 (RefreshToken_revoke stored));
        [done|by rewrite get_by_hash_run, Hfind1|done].
Qed.

End logout_refresh_properties.

(** ** What the authentication endpoints answer on failure *)

Section endpoint_properties.
Context `{Externals}.

(** The class and the status of whatever [refresh_tokens] raises. *)
Lemma refresh_tokens_raises env refresh_token d1 d2 d3 w e w' :
  AuthService.refresh_tokens env refresh_token d1 d2 d3 w = (Raise e, w') →
  ∃ exc, e = App exc ∧ status_code exc = 401 ∧
         (exc_class exc = CTokenError ∨ exc_class exc = CTokenRevokedError).
Proof.
  unfold AuthService.refresh_tokens.
  unfold mbind at 1, M_bind at 1. rewrite get_by_hash_run.
  destruct (snd <$> list_find _ _) as [stored|];
    [|run_M; intros [= <- _]; eexists; repeat split; by left].
  destruct (is_revoked stored);
    [run_M; intros [= <- _]; eexists; repeat split; by right|].
  destruct (is_expired (now env) stored);
    [run_M; intros [= <- _]; eexists; repeat split; by left|].
  unfold UserRepository.get_by_id. run_M.
  destruct (users w !! user_id stored) as [user|];
    [|intros [= <- _]; eexists; repeat split; by left].
  destruct (is_active user); simpl;
    [done|intros [= <- _]; eexists; repeat split; by left].
Qed.

(** The routes of [routes/auth.py] raise what their guard or the service
    raises. *)
Lemma refresh_route_raises env ip cookie w e w' :
  AuthRoutes.refresh_token env ip cookie w = (Raise e, w') →
  ∃ exc, e = App exc ∧ status_code exc = 401 ∧
         (exc_class exc = CTokenError ∨ exc_class exc = CTokenRevokedError).
Proof.
  unfold AuthRoutes.refresh_token. destruct (cookie_missing cookie).
  - intros [= <- _]. eexists. repeat split. by left.
  - apply refresh_tokens_raises.
Qed.

Lemma logout_route_raises cookie w e w' :
  AuthRoutes.logout cookie w = (Raise e, w') →
  e = App (TokenError "Refresh token required") ∧ w' = w ∧
  cookie_missing cookie = true.
Proof.
  unfold AuthRoutes.logout. destruct (cookie_missing cookie).
  - by intros [= <- <-].
  - unfold mbind, M_bind.
    pose proof (logout_run (default "" cookie) w) as Hrun.
    destruct (AuthService.logout (default "" cookie) w) as [[[]|e0] w0];
      [done|].
    destruct (snd <$> list_find _ _) as [stored|]; [|done].
    by destruct (is_revoked stored).
Qed.

(** What [authenticate] raises, for any hasher: [InvalidCredentials], or
    what the dummy verification raised, for an email no user has. *)
Lemma authenticate_raises env email_ password d1 d2 d3 w e w' :
  AuthService.authenticate env email_ password d1 d2 d3 w = (Raise e, w') →
  e = App InvalidCredentials ∨
  (found_user email_ w = None ∧
   ph_verify password_hasher password DUMMY_HASH = Raise e).
Proof.
  unfold AuthService.authenticate.
  unfold mbind at 1, M_bind at 1. rewrite get_by_email_run.
  destruct (found_user email_ w) as [user|]; simpl.
  - unfold mbind at 1, M_bind at 1, verify_password_with_timing_safety.
    rewrite verify_password_run.
    destruct (ph_verify_and_update _ _ _ _) as [[[] upgraded]|e0];
      try (intros [= <- _]; by left).
    destruct (is_active user); simpl; [|intros [= <- _]; by left].
    destruct (AuthService.truthy upgraded); by run_M.
  - unfold mbind at 1, M_bind at 1. rewrite verify_absent_hash_outcome.
    destruct (ph_verify _ _ _) as [b|e0]; intros [= <- _]; [by left|by right].
Qed.

Lemma login_route_raises `{Schemas} env over_limit ip email_ password w e w' :
  AuthRoutes.login env over_limit ip email_ password w = (Raise e, w') →
  (over_limit = true ∧ e = Foreign "RateLimitExceeded" ∧ w' = w) ∨
  (over_limit = false ∧
   (e = App InvalidCredentials ∨
    (found_user email_ w = None ∧
     ph_verify password_hasher password DUMMY_HASH = Raise e) ∨
    ∃ user, UserResponse_model_validate user = Raise e)).
Proof.
  unfold AuthRoutes.login. destruct over_limit.
  { intros [= <- <-]. by left. }
  intros Hroute. right. split; [done|]. revert Hroute.
  unfold AuthService_login, of_result, mbind, M_bind.
  destruct (AuthService.authenticate env email_ password None None ip w)
    as [[[[a r] u]|e0] w0] eqn:Hauth.
  - destruct (UserResponse_model_validate u) as [v|e1] eqn:Hview; [done|].
    intros [= <- _]. right. right. by exists u.
  - intros [= <- _].
    destruct (authenticate_raises _ _ _ _ _ _ _ _ _ Hauth) as [->|Hdummy];
      [by left|right; by left].
Qed.

(** X17. The failures of the login, refresh and logout routes. The login
    route refuses a request over the rate limit with the limiter's
    [RateLimitExceeded] before anything runs, the state untouched;
    otherwise it raises [InvalidCredentials], or, for an email no user has,
    what the hasher's dummy verification raised, or what [model_validate]
    raised on the user. Every failure of the refresh and of the logout
    route is an application exception of status 401, of class [TokenError]
    or [TokenRevokedError]; both refuse a missing or empty cookie with
    "Refresh token required" before the service is called, and that is the
    only failure of the logout route, whose service never raises. *)
Theorem auth_route_failures `{Schemas}
  env over_limit ip email_ password cookie w :
  (over_limit = true →
   AuthRoutes.login env over_limit ip email_ password w
   = (Raise (Foreign "RateLimitExceeded"), w)) ∧
  (∀ e,
     fst (AuthRoutes.login env over_limit ip email_ password w) = Raise e →
     (over_limit = true ∧ e = Foreign "RateLimitExceeded") ∨
     e = App InvalidCredentials ∨
     (found_user email_ w = None ∧
      ph_verify password_hasher password DUMMY_HASH = Raise e) ∨
     ∃ user, UserResponse_model_validate user = Raise e) ∧
  (∀ e,
     fst (AuthRoutes.refresh_token env ip cookie w) = Raise e ∨
     fst (AuthRoutes.logout cookie w) = Raise e →
     ∃ exc,
       e = App exc ∧ status_code exc = 401 ∧
       (exc_class exc = CTokenError ∨ exc_class exc = CTokenRevokedError)) ∧
  (cookie_missing cookie = true →
   AuthRoutes.refresh_token env ip cookie w
   = (Raise (App (TokenError "Refresh token required")), w) ∧
   AuthRoutes.logout cookie w
   = (Raise (App (TokenError "Refresh token required")), w)) ∧
  (cookie_missing cookie = false →
   fst (AuthRoutes.logout cookie w) = Ok ClearRefreshCookie).
Proof.
  split; [|split; [|split; [|split]]].
  - intros ->. reflexivity.
  - intros e Hrun.
    destruct (AuthRoutes.login env over_limit ip email_ password w)
      as [r w'] eqn:Hroute.
    simpl in Hrun. subst r.
    destruct (login_route_raises _ _ _ _ _ _ _ _ Hroute)
      as [(Hlimit & -> & _)|(_ & [->|[Hdummy|Hview]])]; auto.
  - intros e [Hrun|Hrun].
    + destruct (AuthRoutes.refresh_token env ip cookie w) as [r w'] eqn:Hroute.
      simpl in Hrun. subst r.
      by apply (refresh_route_raises _ _ _ _ _ _ Hroute).
    + destruct (AuthRoutes.logout cookie w) as [r w'] eqn:Hroute.
      simpl in Hrun. subst r.
      destruct (logout_route_raises _ _ _ _ Hroute) as (-> & _ & _).
      eexists. split; [done|]. split; [done|]. by left.
  - intros Hmissing. unfold AuthRoutes.refresh_token, AuthRoutes.logout.
    by rewrite Hmissing.
  - intros Hcookie.
    destruct (AuthRoutes.logout cookie w) as [[a|e] w'] eqn:Hroute; simpl.
    + revert Hroute. unfold AuthRoutes.logout. rewrite Hcookie.
      unfold mbind, M_bind.
      destruct (AuthService.logout (default "" cookie) w) as [[[]|e0] w0];
        [|done].
      by intros [= <- _].
    + destruct (logout_route_raises _ _ _ _ Hroute) as (_ & _ & Hmissing).
      congruence.
Qed.

End endpoint_properties.

(** ** The example's password change *)

Section example_password_properties.
Context `{Externals}.

(** X19. The example's [change_password] answers as the full backend's does and
    hands the hasher the same calls, but where the full backend stores the
    new hash beside the next token version, the example stores the new hash
    and leaves the version alone. Neither touches the token table, and a
    failing call stores nothing. *)
Theorem example_change_password_keeps_version env salt' user current new w :
  fst (Minimal.UserService.change_password env salt' user current new w)
  = fst (UserService.change_password env salt' user current new w) ∧
  hasher_calls (snd (Minimal.UserService.change_password env salt' user current new w))
  = hasher_calls (snd (UserService.change_password env salt' user current new w)) ∧
  refresh_tokens (snd (Minimal.UserService.change_password env salt' user current new w))
  = refresh_tokens w ∧
  refresh_tokens (snd (UserService.change_password env salt' user current new w))
  = refresh_tokens w ∧
  match fst (Minimal.UserService.change_password env salt' user current new w) with
  | Ok _ =>
      users (snd (Minimal.UserService.change_password env salt' user current new w))
      = <[id user := User_set_hashed_password user
                       (ph_hash password_hasher salt' new)]> (users w) ∧
      users (snd (UserService.change_password env salt' user current new w))
      = <[id user := User_increment_token_version
                       (User_set_hashed_password user
                          (ph_hash password_hasher salt' new))]> (users w)
  | Raise _ =>
      users (snd (Minimal.UserService.change_password env salt' user current new w))
      = users w ∧
      users (snd (UserService.change_password env salt' user current new w))
      = users w
  end.
Proof.
  destruct (Minimal.UserService.change_password env salt' user current new w)
    as [r1 w1] eqn:Hexample.
  destruct (UserService.change_password env salt' user current new w)
    as [r2 w2] eqn:Hbackend.
  simpl. revert Hexample Hbackend.
  unfold Minimal.UserService.change_password, UserService.change_password.
  unfold mbind, M_bind. rewrite !verify_password_run.
  destruct (ph_verify_and_update _ _ _ _) as [[[] upgraded]|e0]; run_M;
    by intros [= <- <-] [= <- <-].
Qed.

End example_password_properties.

(** ** What the example answers on failure *)

Section example_failure_properties.
Context `{Externals}.

Lemma minimal_authenticate_raises env email_ password w e w' :
  verify_returns_on_own_hashes password_hasher →
  Minimal.AuthService.authenticate env email_ password w = (Raise e, w') →
  e = App InvalidCredentials.
Proof.
  intros Hph. unfold Minimal.AuthService.authenticate.
  unfold mbind at 1, M_bind at 1. rewrite minimal_get_by_email_run.
  destruct (found_user email_ w) as [user|]; simpl.
  - unfold mbind at 1, M_bind at 1, verify_password_with_timing_safety.
    rewrite verify_password_run.
    destruct (ph_verify_and_update _ _ _ _) as [[[] upgraded]|e0];
      try (by intros [= <- _]).
    destruct (is_active user); simpl; [|by intros [= <- _]].
    destruct (Minimal.AuthService.truthy upgraded); by run_M.
  - unfold mbind at 1, M_bind at 1.
    rewrite (verify_absent_hash_run _ _ _ Hph). by intros [= <- _].
Qed.

Lemma minimal_create_user_raises env token_version_ d w e w' :
  Minimal.UserService.create_user env token_version_ d w = (Raise e, w') →
  e = App (EmailAlreadyExists (Minimal.uc_email d)) ∨ e = Foreign "IntegrityError".
Proof.
  unfold Minimal.UserService.create_user.
  unfold mbind at 1, M_bind at 1. rewrite email_exists_run.
  case_bool_decide; [intros [= <- _]; by left|].
  unfold hash_password, Minimal.UserRepository.create_user.
  unfold mbind at 1, M_bind at 1, to_thread.
  unfold mbind at 1, M_bind at 1, gets. simpl.
  unfold mbind at 1, M_bind at 1. rewrite email_exists_run. simpl.
  destruct (_ || _); [intros [= <- _]; by right|by run_M].
Qed.

Lemma minimal_change_password_raises env salt' user current new w e w' :
  Minimal.UserService.change_password env salt' user current new w = (Raise e, w') →
  e = App InvalidCredentials.
Proof.
  unfold Minimal.UserService.change_password.
  unfold mbind at 1, M_bind at 1. rewrite verify_password_run.
  destruct (ph_verify_and_update _ _ _ _) as [[[] upgraded]|e0]; run_M;
    by intros [= <- _].
Qed.

(** X20. The error answers of the example. Whatever application exception its
    registration, login, password change, lookup by id or [CurrentUser]
    raises, the exception handler answers with the exception's message as
    [detail] and one of five pairs of status and [type]; a registration may
    also fail with the database's [IntegrityError], which is not an
    application exception and reaches no such answer. The hasher is one
    whose [verify] returns on its own hashes. *)
Theorem example_failures_rendered
  env token_version_ d email_ password salt' user current new user_id_ now'
  token w exc :
  verify_returns_on_own_hashes password_hasher →
  fst (Minimal.UserService.create_user env token_version_ d w) = Raise (App exc) ∨
  fst (Minimal.AuthService.authenticate env email_ password w) = Raise (App exc) ∨
  fst (Minimal.UserService.change_password env salt' user current new w)
  = Raise (App exc) ∨
  fst (Minimal.UserService.get_user_by_id user_id_ w) = Raise (App exc) ∨
  fst (CurrentUser now' token w) = Raise (App exc) →
  content_detail (app_exception_handler exc) = message exc ∧
  (response_status_code (app_exception_handler exc),
   content_type (app_exception_handler exc))
  ∈ [(409, "EmailAlreadyExists"); (401, "InvalidCredentials");
     (404, "UserNotFound"); (401, "TokenError"); (401, "InactiveUser")].
Proof.
  intros Hph Hrun. split; [done|].
  destruct Hrun as [Hrun|[Hrun|[Hrun|[Hrun|Hrun]]]].
  - destruct (Minimal.UserService.create_user env token_version_ d w)
      as [r w'] eqn:Hcall. simpl in Hrun. subst r.
    destruct (minimal_create_user_raises _ _ _ _ _ _ Hcall) as [[= ->]|[=]].
    set_solver.
  - destruct (Minimal.AuthService.authenticate env email_ password w)
      as [r w'] eqn:Hcall. simpl in Hrun. subst r.
    pose proof (minimal_authenticate_raises _ _ _ _ _ _ Hph Hcall) as [= ->].
    set_solver.
  - destruct (Minimal.UserService.change_password env salt' user current new w)
      as [r w'] eqn:Hcall. simpl in Hrun. subst r.
    pose proof (minimal_change_password_raises _ _ _ _ _ _ _ _ Hcall) as [= ->].
    set_solver.
  - revert Hrun.
    unfold Minimal.UserService.get_user_by_id, Minimal.UserRepository.get_by_id.
    run_M. destruct (users w !! user_id_); simpl; [done|].
    intros [= <-]. set_solver.
  - destruct (CurrentUser now' token w) as [r w'] eqn:Hcall. simpl in Hrun.
    subst r.
    destruct (CurrentUser_raises _ _ _ _ _ Hcall)
      as [[Hclass Hstatus]|[[Hclass Hstatus]| ->]];
      unfold app_exception_handler; rewrite ?Hclass, ?Hstatus; set_solver.
Qed.

End example_failure_properties.

(** ** Concrete runs of the further properties *)

Lemma demo_users_wf : users_wf (users Demo.world).
Proof.
  change (users Demo.world)
    with (<[7%N := Demo.alice]> ({[8%N := Demo.bob]} : gmap UUID User)).
  split.
  - intros k u Hk.
    apply lookup_insert_Some in Hk as [[<- <-]|[_ Hk]]; [done|].
    by apply lookup_singleton_Some in Hk as [<- <-].
  - intros k1 k2 u1 u2 H1 H2 Heq.
    apply lookup_insert_Some in H1 as [[<- <-]|[_ H1]];
      [|apply lookup_singleton_Some in H1 as [<- <-]];
      (apply lookup_insert_Some in H2 as [[<- <-]|[_ H2]];
         [|apply lookup_singleton_Some in H2 as [<- <-]]);
      done.
Qed.

(** Rows of a concrete table all have a decidable property. *)
Lemma all_rows {A} (P : A → Prop) `{∀ x, Decision (P x)} (l : list A) :
  forallb (λ x, bool_decide (P x)) l = true → ∀ x, x ∈ l → P x.
Proof.
  intros Hall x Hx. apply list_elem_of_In in Hx.
  rewrite forallb_forall in Hall. exact (bool_decide_eq_true_1 _ (Hall x Hx)).
Qed.

Lemma login_cookie_refreshes_once_demo :
  ∃ w2,
    @AuthRoutes.refresh_token Demo.externals
      {| now := 1100; salt := "salt2"; token_urlsafe := "r10";
         uuid7_family := 401%N; uuid7_row := 10%N |}
      None (Some "r9")
      (snd (@AuthRoutes.login Demo.externals Demo.schemas Demo.env false None
              "alice@example.com" "Passw0rd!" Demo.world))
    = (Ok "stale.access.token", w2) ∧
    fst (@AuthRoutes.refresh_token Demo.externals
           {| now := 1200; salt := "salt3"; token_urlsafe := "r11";
              uuid7_family := 402%N; uuid7_row := 11%N |}
           None (Some "r9") w2)
    = Raise (App (@TokenRevokedError Demo.externals)).
Proof.
  destruct (@login_cookie_refreshes_once Demo.externals Demo.schemas Demo.env
              {| now := 1100; salt := "salt2"; token_urlsafe := "r10";
                 uuid7_family := 401%N; uuid7_row := 10%N |}
              {| now := 1200; salt := "salt3"; token_urlsafe := "r11";
                 uuid7_family := 402%N; uuid7_row := 11%N |}
              false None None None "alice@example.com" "Passw0rd!" Demo.world
              "stale.access.token"
              {| Demo.view_id := 7%N; Demo.view_email := "alice@example.com";
                 Demo.view_is_active := true |}
              "r9"
              (snd (@AuthRoutes.login Demo.externals Demo.schemas Demo.env
                      false None "alice@example.com" "Passw0rd!" Demo.world))
              demo_users_wf)
    as (user & w2 & w3 & Hview & Hstored & Hrefresh & _ & Hreplay & _).
  - discriminate.
  - apply (all_rows (λ x, token_hash x ≠ "sha256:r9")). reflexivity.
  - reflexivity.
  - reflexivity.
  - exists w2. split; [|by rewrite Hreplay].
    rewrite Hrefresh. reflexivity.
Defined.

Lemma reachable_family_invariant_demo :
  family_invariant 1100
    (refresh_tokens
       (@serve Demo.externals
          {| now := 1100; salt := "salt2"; token_urlsafe := "r10";
             uuid7_family := 401%N; uuid7_row := 10%N |}
          (Refresh "r9" None None None)
          (@serve Demo.externals Demo.env
             (Login "alice@example.com" "Passw0rd!" None None None)
             {| users := users Demo.world; refresh_tokens := [];
                hasher_calls := [] |}))).
Proof.
  apply (@reachable_family_invariant Demo.externals).
  apply (@reachable_step Demo.externals 1000 _
           {| now := 1100; salt := "salt2"; token_urlsafe := "r10";
              uuid7_family := 401%N; uuid7_row := 10%N |}).
  - apply (@reachable_step Demo.externals 0 _ Demo.env).
    + by apply reachable_start.
    + simpl. lia.
    + apply (all_rows (λ x, family_id x ≠ 400%N)). reflexivity.
  - simpl. lia.
  - apply (all_rows (λ x, family_id x ≠ 401%N)). reflexivity.
Defined.

Lemma serve_keeps_identities_demo :
  match users Demo.world !! 7%N,
        users (@serve Demo.externals Demo.env (LogoutAll Demo.alice) Demo.world)
          !! 7%N with
  | Some u, Some u' => same_identity u u' ∧ token_version u' = 4
  | _, _ => False
  end.
Proof.
  pose proof (@serve_keeps_identities Demo.externals Demo.env
                (LogoutAll Demo.alice) Demo.world 7%N demo_users_wf eq_refl)
    as Hsame.
  split; [exact Hsame|reflexivity].
Defined.

Lemma serve_keeps_users_wf_demo :
  users_wf
    (users (@serve Demo.externals Demo.env
              (ChangePassword "salt2" Demo.alice "Passw0rd!" "N3wPassw0rd")
              Demo.world)).
Proof.
  exact (@serve_keeps_users_wf Demo.externals Demo.env
           (ChangePassword "salt2" Demo.alice "Passw0rd!" "N3wPassw0rd")
           Demo.world demo_users_wf eq_refl).
Defined.

Lemma register_taken_email_demo :
  @Minimal.UserService.create_user Demo.externals Demo.env 0
    {| Minimal.uc_email := "alice@example.com"; Minimal.uc_password := "Another1" |}
    Demo.world
  = (Raise (App (EmailAlreadyExists "alice@example.com")), Demo.world).
Proof.
  exact (proj1 (@register_taken_email Demo.externals Demo.env 0
                  {| Minimal.uc_email := "alice@example.com";
                     Minimal.uc_password := "Another1" |}
                  Demo.world 7%N Demo.alice eq_refl eq_refl)).
Defined.

Lemma register_keeps_users_wf_demo :
  users_wf
    (users (snd (@Minimal.UserService.create_user Demo.externals Demo.env 0
                   {| Minimal.uc_email := "carol@example.com";
                      Minimal.uc_password := "Tr1cky!pass" |}
                   Demo.world))).
Proof.
  exact (proj1 (@register_keeps_users_wf Demo.externals Demo.env 0
                  {| Minimal.uc_email := "carol@example.com";
                     Minimal.uc_password := "Tr1cky!pass" |}
                  Demo.world demo_users_wf)).
Defined.

Lemma register_then_login_demo :
  ∃ user w2,
    @Minimal.AuthService.authenticate Demo.externals
      {| now := 1100; salt := "salt2"; token_urlsafe := "r10";
         uuid7_family := 401%N; uuid7_row := 10%N |}
      "carol@example.com" "Tr1cky!pass"
      (snd (@Minimal.UserService.create_user Demo.externals Demo.env 0
              {| Minimal.uc_email := "carol@example.com";
                 Minimal.uc_password := "Tr1cky!pass" |}
              Demo.world))
    = (Ok ("stale.access.token", user), w2) ∧
    id user = 9%N.
Proof.
  destruct (@register_then_login Demo.externals Demo.env
              {| now := 1100; salt := "salt2"; token_urlsafe := "r10";
                 uuid7_family := 401%N; uuid7_row := 10%N |}
              0
              {| Minimal.uc_email := "carol@example.com";
                 Minimal.uc_password := "Tr1cky!pass" |}
              Demo.world demo_users_wf eq_refl eq_refl demo_accepts_own_hashes)
    as (user & w2 & Hrun & Hid & _).
  exists user, w2. split; [exact Hrun|exact Hid].
Defined.

Lemma login_token_resolves_to_user_demo :
  @CurrentUser Issued.externals 1500 "fresh.access.token"
    (snd (@Minimal.AuthService.authenticate Issued.externals Demo.env
            "alice@example.com" "Passw0rd!" Demo.world))
  = (Ok Demo.alice,
     snd (@Minimal.AuthService.authenticate Issued.externals Demo.env
            "alice@example.com" "Passw0rd!" Demo.world)).
Proof.
  exact (proj2 (@login_token_resolves_to_user Issued.externals Demo.env 1500
                  "alice@example.com" "Passw0rd!" Demo.world
                  "fresh.access.token" Demo.alice
                  (snd (@Minimal.AuthService.authenticate Issued.externals
                          Demo.env "alice@example.com" "Passw0rd!" Demo.world))
                  demo_users_wf eq_refl eq_refl eq_refl)).
Defined.

Lemma change_password_then_login_demo :
  ∃ access raw user' w2,
    @AuthService.authenticate Demo.externals
      {| now := 1100; salt := "salt2"; token_urlsafe := "r10";
         uuid7_family := 401%N; uuid7_row := 10%N |}
      "alice@example.com" "N3wPassw0rd" None None None
      (snd (@UserService.change_password Demo.externals Demo.env "salt3"
              Demo.alice "Passw0rd!" "N3wPassw0rd" Demo.world))
    = (Ok (access, raw, user'), w2) ∧
    3 < token_version user'.
Proof.
  destruct (@change_password_then_login Demo.externals Demo.env
              {| now := 1100; salt := "salt2"; token_urlsafe := "r10";
                 uuid7_family := 401%N; uuid7_row := 10%N |}
              "salt3" Demo.alice "Passw0rd!" "N3wPassw0rd" None None None
              Demo.world None demo_users_wf eq_refl eq_refl eq_refl
              demo_accepts_own_hashes)
    as (access & raw & user' & w2 & Hrun & _ & Hversion & _).
  exists access, raw, user', w2. split; [exact Hrun|exact Hversion].
Defined.

Lemma refresh_survives_password_change_demo :
  fst (@AuthService.refresh_tokens Demo.externals
         {| now := 1100; salt := "salt2"; token_urlsafe := "r10";
            uuid7_family := 401%N; uuid7_row := 10%N |}
         "r2" None None None
         (snd (@UserService.change_password Demo.externals Demo.env "salt3"
                 Demo.alice "Passw0rd!" "N3wPassw0rd" Demo.world)))
  = Ok "stale.access.token".
Proof.
  exact (@refresh_survives_password_change Demo.externals Demo.env
           {| now := 1100; salt := "salt2"; token_urlsafe := "r10";
              uuid7_family := 401%N; uuid7_row := 10%N |}
           "salt3" Demo.alice "Passw0rd!" "N3wPassw0rd" "r2" None None None
           Demo.world None (Demo.token 2%N 7%N "r2" 100%N 6000 false)
           eq_refl eq_refl eq_refl eq_refl eq_refl eq_refl).
Defined.

Lemma logout_then_refresh_fails_demo :
  fst (@AuthService.refresh_tokens Demo.externals Demo.env "r2" None None None
         (snd (@AuthService.logout Demo.externals "r2" Demo.world)))
  = Raise (App (@TokenRevokedError Demo.externals)).
Proof.
  exact (proj1 (@logout_then_refresh_fails Demo.externals Demo.env "r2"
                  None None None Demo.world
                  (Demo.token 2%N 7%N "r2" 100%N 6000 false) eq_refl)).
Defined.

Lemma logout_all_then_refresh_fails_demo :
  fst (@AuthService.refresh_tokens Demo.externals Demo.env "r3" None None None
         (snd (AuthService.logout_all Demo.env Demo.alice Demo.world)))
  = Raise (App (@TokenRevokedError Demo.externals)) ∧
  fst (@AuthService.refresh_tokens Demo.externals Demo.env "r4" None None None
         (snd (AuthService.logout_all Demo.env Demo.alice Demo.world)))
  = Raise (App (TokenError "Refresh token expired")).
Proof.
  split.
  - apply (@logout_all_then_refresh_fails Demo.externals Demo.env Demo.env
             Demo.alice "r3" None None None Demo.world
             (Demo.token 3%N 7%N "r3" 200%N 6000 false) eq_refl eq_refl).
    simpl. lia.
  - apply (@logout_all_then_refresh_fails Demo.externals Demo.env Demo.env
             Demo.alice "r4" None None None Demo.world
             (Demo.token 4%N 7%N "r4" 300%N 500 false) eq_refl eq_refl).
    simpl. lia.
Defined.

Lemma auth_route_failures_demo :
  @AuthRoutes.login Demo.externals Demo.schemas Demo.env true None
    "alice@example.com" "Passw0rd!" Demo.world
  = (Raise (Foreign "RateLimitExceeded"), Demo.world) ∧
  @AuthRoutes.logout Demo.externals None Demo.world
  = (Raise (App (TokenError "Refresh token required")), Demo.world) ∧
  fst (@AuthRoutes.logout Demo.externals (Some "r2") Demo.world)
  = Ok ClearRefreshCookie.
Proof.
  split; [|split].
  - exact (proj1 (@auth_route_failures Demo.externals Demo.schemas Demo.env
                    true None "alice@example.com" "Passw0rd!" None Demo.world)
             eq_refl).
  - exact (proj2 (proj1 (proj2 (proj2 (proj2
             (@auth_route_failures Demo.externals Demo.schemas Demo.env
                false None "alice@example.com" "Passw0rd!" None Demo.world))))
             eq_refl)).
  - exact (proj2 (proj2 (proj2 (proj2
             (@auth_route_failures Demo.externals Demo.schemas Demo.env
                false None "alice@example.com" "Passw0rd!" (Some "r2")
                Demo.world)))) eq_refl).
Defined.

Lemma example_failures_rendered_demo :
  fst (@CurrentUser Demo.externals 1000 "other.type.token" Demo.world)
  = Raise (App (TokenError "Invalid token type")) ∧
  (response_status_code (app_exception_handler (TokenError "Invalid token type")),
   content_type (app_exception_handler (TokenError "Invalid token type")))
  ∈ [(409, "EmailAlreadyExists"); (401, "InvalidCredentials");
     (404, "UserNotFound"); (401, "TokenError"); (401, "InactiveUser")].
Proof.
  split; [reflexivity|].
  exact (proj2 (@example_failures_rendered Demo.externals Demo.env 0
                  {| Minimal.uc_email := "carol@example.com";
                     Minimal.uc_password := "Tr1cky!pass" |}
                  "alice@example.com" "Passw0rd!" "salt2" Demo.alice
                  "Passw0rd!" "N3wPassw0rd" 7%N 1000 "other.type.token"
                  Demo.world (TokenError "Invalid token type")
                  demo_verify_returns
                  (or_intror (or_intror (or_intror (or_intror eq_refl)))))).
Defined.

Lemma change_password_outcomes_demo :
  @UserService.change_password Demo.externals Demo.env "salt3" Demo.alice
    "wrong" "N3wPassw0rd" Demo.world
  = (Raise (App InvalidCredentials),
     log_call (CallVerifyAndUpdate "wrong" (hashed_password Demo.alice)) Demo.world).
Proof.
  apply (proj1 (@change_password_outcomes Demo.externals Demo.env "salt3"
                  Demo.alice "wrong" "N3wPassw0rd" Demo.world)).
  intros upgraded. simpl. discriminate.
Defined.

(** * The access tokens of the full backend *)

Section versioned_token_properties.
Context `{Externals}.

(** The claim set without extra claims. *)
Lemma versioned_payload_None now user_id_ token_version_ :
  FullBackend.access_token_payload now user_id_ token_version_ None
  = {[ "sub" := VStr (uuid_str user_id_);
       "type" := VStr "access";
       "iat" := VInt now;
       "exp" := VInt (now + 60 * ACCESS_TOKEN_EXPIRE_MINUTES settings);
       "ver" := VInt token_version_ ]}.
Proof.
  unfold FullBackend.access_token_payload, TokenType_ACCESS. simpl.
  by rewrite (left_id_L ∅ (∪)).
Qed.

Lemma versioned_payload_union now user_id_ token_version_ extra_claims :
  FullBackend.access_token_payload now user_id_ token_version_ extra_claims
  = default ∅ extra_claims
    ∪ FullBackend.access_token_payload now user_id_ token_version_ None.
Proof.
  unfold FullBackend.access_token_payload. simpl.
  by rewrite (left_id_L ∅ (∪)).
Qed.

(** The run of the validator on a token that decodes to an access token of
    a stored user: the version check decides. *)
Lemma versioned_get_current_user_run now token payload sub user_id_ user w :
  decode_access_token now token = inr payload →
  payload !! "type" = Some (VStr "access") →
  payload !! "sub" = Some (VStr sub) →
  uuid_parse sub = Some user_id_ →
  users w !! user_id_ = Some user →
  FullBackend.get_current_user now token w
  = (if bool_decide (payload !! "ver" ≠ Some (VInt (token_version user)))
     then Raise (App (TokenError "Invalid token version"))
     else Ok user, w).
Proof.
  intros Hdecode Htype Hsub Hparse Huser. unfold FullBackend.get_current_user.
  rewrite Hdecode. unfold TokenType_ACCESS.
  rewrite bool_decide_eq_false_2 by (intros Hne; by apply Hne).
  rewrite Hsub, Hparse. unfold UserRepository.get_by_id. run_M.
  rewrite Huser. by case_bool_decide.
Qed.

(** What the validator returned, it returned for a token of type [access]
    whose [ver] is the version of the stored user it names. *)
Lemma versioned_get_current_user_inv now token w user w' :
  FullBackend.get_current_user now token w = (Ok user, w') →
  w' = w ∧
  ∃ payload sub user_id_,
    decode_access_token now token = inr payload ∧
    payload !! "type" = Some (VStr "access") ∧
    payload !! "sub" = Some (VStr sub) ∧
    uuid_parse sub = Some user_id_ ∧
    users w !! user_id_ = Some user ∧
    payload !! "ver" = Some (VInt (token_version user)).
Proof.
  unfold FullBackend.get_current_user.
  destruct (decode_access_token now token) as [msg|payload] eqn:Hdecode;
    [by run_M|].
  unfold TokenType_ACCESS. case_bool_decide as Htype; [by run_M|].
  destruct (payload !! "sub") as [[sub|z]|] eqn:Hsub; [|by run_M..].
  destruct (uuid_parse sub) as [user_id_|] eqn:Hparse; [|by run_M].
  unfold UserRepository.get_by_id. run_M.
  destruct (users w !! user_id_) as [u|] eqn:Huser; [|done].
  case_bool_decide as Hver; simpl; [done|].
  intros [= <- <-]. split; [done|].
  by exists payload, sub, user_id_.
Qed.

(** The token a successful refresh returns is the one requested for the
    stored owner of the presented record. *)
Lemma refresh_tokens_returns_stored env refresh_token d1 d2 d3 w access w' :
  users_wf (users w) →
  AuthService.refresh_tokens env refresh_token d1 d2 d3 w = (Ok access, w') →
  ∃ user,
    users w' !! id user = Some user ∧
    access = create_versioned_access_token (now env) (id user) (token_version user).
Proof.
  intros [Hkeys _] Hrun.
  destruct (refresh_tokens_success_inv _ _ _ _ _ _ _ _ Hrun)
    as (stored & user & Hget & Hlive & Huser & Hactive).
  rewrite (refresh_tokens_succeeds _ _ d1 d2 d3 _ _ _ Hget Hlive Huser Hactive)
    in Hrun.
  injection Hrun as <- <-. exists user. split; [|done].
  simpl. by rewrite (Hkeys _ _ Huser).
Qed.

(** C4. The access token of the full backend, whose issuer is modelled from
    the specification: for every user id, token version and extra claims
    the token is the claim set signed with [SECRET_KEY] under the
    configured algorithm, which is one of the HMAC family; the claim set
    is [sub], [type = "access"], [iat = now], [exp = now + TTL] and
    [ver = token_version], and beside them the extra claims, nothing else;
    without an extra claim of that name, [ver] is the token version. With
    this issuer behind [services/auth.py], the token of every successful
    login and of every successful refresh is the one issued for the id and
    the [token_version] of the user as stored when the call returns. *)
Theorem issued_access_token_claims instant user_id_ token_version_ extra_claims :
  FullBackend.create_access_token instant user_id_ token_version_ extra_claims
  = jwt_encode
      (FullBackend.access_token_payload instant user_id_ token_version_ extra_claims)
      (SECRET_KEY settings) (JWT_ALGORITHM settings) ∧
  symmetric (JWT_ALGORITHM settings) = true ∧
  FullBackend.access_token_payload instant user_id_ token_version_ None
  = {[ "sub" := VStr (uuid_str user_id_);
       "type" := VStr "access";
       "iat" := VInt instant;
       "exp" := VInt (instant + 60 * ACCESS_TOKEN_EXPIRE_MINUTES settings);
       "ver" := VInt token_version_ ]} ∧
  (∀ k, default ∅ extra_claims !! k = None →
        FullBackend.access_token_payload instant user_id_ token_version_ extra_claims
          !! k
        = FullBackend.access_token_payload instant user_id_ token_version_ None !! k) ∧
  (∀ k v, default ∅ extra_claims !! k = Some v →
          FullBackend.access_token_payload instant user_id_ token_version_
            extra_claims !! k = Some v) ∧
  dom (FullBackend.access_token_payload instant user_id_ token_version_ extra_claims)
  = ({[ "sub"; "type"; "iat"; "exp"; "ver" ]} : gset string)
    ∪ dom (default ∅ extra_claims) ∧
  (default ∅ extra_claims !! "ver" = None →
   FullBackend.access_token_payload instant user_id_ token_version_ extra_claims
     !! "ver" = Some (VInt token_version_)) ∧
  ((∀ now' user_id' version',
      create_versioned_access_token now' user_id' version'
      = FullBackend.create_access_token now' user_id' version' None) →
   (∀ env email_ password d1 d2 d3 w access raw user w',
      users_wf (users w) →
      AuthService.authenticate env email_ password d1 d2 d3 w
      = (Ok (access, raw, user), w') →
      users w' !! id user = Some user ∧
      access = FullBackend.create_access_token (now env) (id user)
                 (token_version user) None) ∧
   (∀ env refresh_token d1 d2 d3 w access w',
      users_wf (users w) →
      AuthService.refresh_tokens env refresh_token d1 d2 d3 w = (Ok access, w') →
      ∃ user,
        users w' !! id user = Some user ∧
        access = FullBackend.create_access_token (now env) (id user)
                   (token_version user) None)).
Proof.
  split; [done|]. split; [by destruct (JWT_ALGORITHM settings)|].
  split; [apply versioned_payload_None|].
  split; [|split; [|split; [|split]]].
  - intros k Hk. rewrite versioned_payload_union. by rewrite lookup_union_r.
  - intros k v Hk. rewrite versioned_payload_union.
    by erewrite lookup_union_Some_l.
  - rewrite versioned_payload_union, dom_union_L, versioned_payload_None.
    rewrite !dom_insert_L, dom_singleton_L. apply (comm_L (∪)).
  - intros Hver. rewrite versioned_payload_union, lookup_union_r by done.
    by rewrite versioned_payload_None.
  - intros Hissuer. split.
    + intros env email_ password d1 d2 d3 w access raw user w' Hwf Hlogin.
      destruct (authenticate_returns_stored _ _ _ _ _ _ _ _ _ _ _ Hwf Hlogin)
        as (Hstored & -> & _).
      by rewrite Hissuer.
    + intros env refresh_token d1 d2 d3 w access w' Hwf Hrun.
      destruct (refresh_tokens_returns_stored _ _ _ _ _ _ _ _ Hwf Hrun)
        as (user & Hstored & ->).
      exists user. by rewrite Hissuer.
Qed.

(** C5. Token validation of the full backend, whose validator is modelled
    from the specification, for a token that decodes. A [type] claim other
    than ["access"] is rejected with a [TokenError], by this validator and
    by the example's [get_current_user] alike. A token of type [access]
    whose subject is a stored user is rejected with a [TokenError] when its
    [ver] claim is not the user's [token_version], and resolves to the user
    when it is; so the validator returns a user only for a token of type
    [access] that carries that user's version. A [TokenError] is an
    authentication error of status 401. *)
Theorem token_validation_rejects_type_and_version now token payload w :
  decode_access_token now token = inr payload →
  (payload !! "type" ≠ Some (VStr "access") →
   FullBackend.get_current_user now token w
   = (Raise (App (TokenError "Invalid token type")), w) ∧
   get_current_user now token w
   = (Raise (App (TokenError "Invalid token type")), w)) ∧
  (∀ sub user_id_ user,
     payload !! "type" = Some (VStr "access") →
     payload !! "sub" = Some (VStr sub) →
     uuid_parse sub = Some user_id_ →
     users w !! user_id_ = Some user →
     (payload !! "ver" ≠ Some (VInt (token_version user)) →
      ∃ message_,
        FullBackend.get_current_user now token w
        = (Raise (App (TokenError message_)), w)) ∧
     (payload !! "ver" = Some (VInt (token_version user)) →
      FullBackend.get_current_user now token w = (Ok user, w))) ∧
  (∀ user w',
     FullBackend.get_current_user now token w = (Ok user, w') →
     payload !! "type" = Some (VStr "access") ∧
     payload !! "ver" = Some (VInt (token_version user))) ∧
  (∀ message_,
     exc_class (TokenError message_) = CTokenError ∧
     status_code (TokenError message_) = 401).
Proof.
  intros Hdecode. split; [|split; [|split; [|done]]].
  - intros Htype. split; [|by apply (get_current_user_type_mismatch _ _ payload)].
    unfold FullBackend.get_current_user. rewrite Hdecode.
    unfold TokenType_ACCESS. by rewrite bool_decide_eq_true_2.
  - intros sub user_id_ user Htype Hsub Hparse Huser.
    rewrite (versioned_get_current_user_run _ _ _ _ _ _ _ Hdecode Htype Hsub
               Hparse Huser).
    split; intros Hver.
    + rewrite bool_decide_eq_true_2 by done. by eexists.
    + rewrite bool_decide_eq_false_2; [done|]. intros Hne. by apply Hne.
  - intros user w' Hrun.
    destruct (versioned_get_current_user_inv _ _ _ _ _ Hrun)
      as (_ & payload' & sub & user_id_ & Hdecode' & Htype & _ & _ & _ & Hver).
    rewrite Hdecode in Hdecode'. by injection Hdecode' as <-.
Qed.

(** C6. For a stored user with N live refresh tokens, [logout_all] returns N
    and stores the user with [token_version] one higher than before. The
    access tokens that bear the old version are invalidated at once: a
    token of the user with [ver] the old version, which the validator of
    the full backend resolved to the user before the call, is rejected
    with a [TokenError] after it, and what the validator still returns for
    the user bears the new version. Each of the N live tokens is revoked:
    afterwards the user has no live token, and every row that was not a
    live token of the user is as it was. The validator, the counting
    [revoke_all_user_tokens] and the model's [increment_token_version] are
    modelled from the specification. *)
Theorem logout_all_revokes_and_counts env user w :
  users w !! id user = Some user →
  ∃ user' w',
    AuthService.logout_all env user w
    = (Ok (Z.of_nat (live_count (now env) (id user) (refresh_tokens w))), w') ∧
    users w' !! id user = Some user' ∧
    token_version user' = token_version user + 1 ∧
    token_version user < token_version user' ∧
    (∀ now' token payload,
       decode_access_token now' token = inr payload →
       payload !! "type" = Some (VStr "access") →
       payload !! "sub" = Some (VStr (uuid_str (id user))) →
       uuid_parse (uuid_str (id user)) = Some (id user) →
       payload !! "ver" = Some (VInt (token_version user)) →
       FullBackend.get_current_user now' token w = (Ok user, w) ∧
       ∃ message_,
         FullBackend.get_current_user now' token w'
         = (Raise (App (TokenError message_)), w')) ∧
    (∀ now' token w'',
       FullBackend.get_current_user now' token w' = (Ok user', w'') →
       ∃ payload,
         decode_access_token now' token = inr payload ∧
         payload !! "ver" = Some (VInt (token_version user + 1))) ∧
    (∀ t, t ∈ refresh_tokens w →
          RefreshTokenRepository.live_of_user (now env) (id user) t = true →
          RefreshToken_revoke t ∈ refresh_tokens w') ∧
    live_count (now env) (id user) (refresh_tokens w') = 0%nat ∧
    (∀ t, t ∈ refresh_tokens w →
          RefreshTokenRepository.live_of_user (now env) (id user) t = false →
          t ∈ refresh_tokens w') ∧
    length (refresh_tokens w') = length (refresh_tokens w).
Proof.
  intros Huser. rewrite logout_all_run.
  eexists (User_increment_token_version user), _.
  split; [reflexivity|]. simpl.
  split; [by rewrite lookup_insert_eq|].
  split; [done|]. split; [lia|].
  split; [|split; [|split; [|split; [|split]]]].
  - intros now' token payload Hdecode Htype Hsub Hparse Hver. split.
    + rewrite (versioned_get_current_user_run _ _ _ _ _ _ _ Hdecode Htype Hsub
                 Hparse Huser).
      rewrite bool_decide_eq_false_2; [done|]. intros Hne. by apply Hne.
    + erewrite (versioned_get_current_user_run _ _ _ _ _
                  (User_increment_token_version user) _ Hdecode Htype Hsub
                  Hparse); [|simpl; by rewrite lookup_insert_eq].
      rewrite bool_decide_eq_true_2; [by eexists|].
      rewrite Hver. simpl. intros [=]. lia.
  - intros now' token w'' Hrun.
    destruct (versioned_get_current_user_inv _ _ _ _ _ Hrun)
      as (_ & payload & sub & user_id_ & Hdecode & _ & _ & _ & _ & Hver).
    by exists payload.
  - intros t Hin Hlive. apply list_elem_of_fmap. exists t. by rewrite Hlive.
  - unfold live_count. rewrite filter_none; [done|].
    intros x Hx Hlive. apply list_elem_of_fmap in Hx as (t & -> & _).
    destruct (RefreshTokenRepository.live_of_user (now env) (id user) t) eqn:Ht;
      [|congruence].
    unfold RefreshTokenRepository.live_of_user in Hlive.
    by rewrite RefreshToken_revoke_not_live in Hlive.
  - intros t Hin Hdead. apply list_elem_of_fmap. exists t. by rewrite Hdead.
  - by rewrite length_fmap.
Qed.

End versioned_token_properties.

(** The token of a login of user 7 at version 3, in the instance that
    writes the claims out: it carries [ver = 3]. *)
Lemma issued_access_token_claims_demo :
  ∃ access,
    fst (@AuthService.authenticate Codec.externals Demo.env "alice@example.com"
           "Passw0rd!" None None None Demo.world)
    = Ok (access, "r9", Demo.alice) ∧
    @decode_access_token Codec.externals 1500 access
    = inr ({[ "sub" := VStr "00000000-0000-0000-0000-000000000007";
              "type" := VStr "access"; "iat" := VInt 1000;
              "exp" := VInt 2800; "ver" := VInt 3 ]} : Claims).
Proof.
  destruct (@issued_access_token_claims Codec.externals 1000 7%N 3 None)
    as (_ & _ & _ & _ & _ & _ & _ & Hservice).
  destruct (Hservice (λ _ _ _, eq_refl)) as [Hlogin _].
  destruct (Hlogin Demo.env "alice@example.com" "Passw0rd!" None None None
              Demo.world
              (@FullBackend.create_access_token Codec.externals 1000 7%N 3 None)
              "r9" Demo.alice
              (snd (@AuthService.authenticate Codec.externals Demo.env
                      "alice@example.com" "Passw0rd!" None None None
                      Demo.world))
              demo_users_wf eq_refl)
    as [_ Haccess].
  exists (@FullBackend.create_access_token Codec.externals 1000 7%N 3 None).
  split; [reflexivity|]. vm_compute. reflexivity.
Defined.

(** Two tokens of user 7, whose [token_version] is 3: the one issued at
    version 2 is rejected, the one issued at version 3 resolves. *)
Lemma token_validation_demo :
  (∃ message_,
     @FullBackend.get_current_user Codec.externals 1000
       (@FullBackend.create_access_token Codec.externals 900 7%N 2 None)
       Demo.world
     = (Raise (App (TokenError message_)), Demo.world)) ∧
  @FullBackend.get_current_user Codec.externals 1000
    (@FullBackend.create_access_token Codec.externals 900 7%N 3 None)
    Demo.world
  = (Ok Demo.alice, Demo.world).
Proof.
  split.
  - apply (proj1 (proj2 (@token_validation_rejects_type_and_version
             Codec.externals 1000
             (@FullBackend.create_access_token Codec.externals 900 7%N 2 None)
             (@FullBackend.access_token_payload Codec.externals 900 7%N 2 None)
             Demo.world ltac:(vm_compute; reflexivity)))
             "00000000-0000-0000-0000-000000000007" 7%N Demo.alice);
      [reflexivity|reflexivity|reflexivity|reflexivity|].
    vm_compute. discriminate.
  - apply (proj1 (proj2 (@token_validation_rejects_type_and_version
             Codec.externals 1000
             (@FullBackend.create_access_token Codec.externals 900 7%N 3 None)
             (@FullBackend.access_token_payload Codec.externals 900 7%N 3 None)
             Demo.world ltac:(vm_compute; reflexivity)))
             "00000000-0000-0000-0000-000000000007" 7%N Demo.alice);
      reflexivity.
Defined.

(** User 7 logs out from all devices: two live refresh tokens are revoked,
    the version goes from 3 to 4, and the access token issued at version 3,
    accepted before, is rejected after. *)
Lemma logout_all_demo :
  fst (AuthService.logout_all Demo.env Demo.alice Demo.world) = Ok 2 ∧
  @FullBackend.get_current_user Codec.externals 1000
    (@FullBackend.create_access_token Codec.externals 900 7%N 3 None)
    Demo.world
  = (Ok Demo.alice, Demo.world) ∧
  ∃ message_,
    @FullBackend.get_current_user Codec.externals 1000
      (@FullBackend.create_access_token Codec.externals 900 7%N 3 None)
      (snd (AuthService.logout_all Demo.env Demo.alice Demo.world))
    = (Raise (App (TokenError message_)),
       snd (AuthService.logout_all Demo.env Demo.alice Demo.world)).
Proof.
  destruct (@logout_all_revokes_and_counts Codec.externals Demo.env Demo.alice
              Demo.world eq_refl)
    as (user' & w' & Hrun & _ & _ & _ & Hinvalid & _).
  destruct (Hinvalid 1000
              (@FullBackend.create_access_token Codec.externals 900 7%N 3 None)
              (@FullBackend.access_token_payload Codec.externals 900 7%N 3 None)
              ltac:(vm_compute; reflexivity) eq_refl eq_refl eq_refl eq_refl)
    as [Hbefore [message_ Hafter]].
  split; [reflexivity|]. split; [exact Hbefore|].
  exists message_. rewrite Hrun. exact Hafter.
Defined.
